(** * Verification of the stimulation controller and Bayesian optimiser
      of bayesian_stim_cycling.

    Angles, intensities and costs handled by the controller and by the
    optimiser's bookkeeping are modelled as rationals [Q]; the Gaussian
    process, the acquisition function and the angle rotation are modelled
    over the reals [R]. Python exceptions are the constructors of
    [py_error]; a computation that may raise returns a [result].
    [PedalFloat] repeats the angle rotation and the cycle segmentation
    over IEEE binary64 floats, and [PedalWorkerFloat] models the sensor
    loop of [PedalWorker.run] over them. *)

From Stdlib Require Import List String Bool Arith Lia ZArith QArith Qround.
From Stdlib Require Import Reals Lra.
From Stdlib Require Lqa.
From Corelib Require PrimFloat SpecFloat FloatOps FloatAxioms.
Import ListNotations.

(** ** Python exceptions and fallible results *)

Inductive py_error : Type :=
| RuntimeError (msg : string)
| ZeroDivisionError
| IndexError
| KeyError (key : string)
| ValueError
| AttributeError (name : string)
| TypeError (msg : string)
| LinAlgError.

Inductive result (A : Type) : Type :=
| Ok (a : A)
| Err (e : py_error).
Arguments Ok {A} a.
Arguments Err {A} e.


(** Strict comparison of rationals as Python's [<] on numbers. *)
Definition Qltb (x y : Q) : bool := negb (Qle_bool y x).

(** ** src/stim_worker.py : HandCycling2 *)
Module StimWorker.

Local Open Scope Q_scope.
Local Open Scope string_scope.

(** The per-channel object of pysciencemode ([Ch]) as far as the controller
    touches it: [set_amplitude] and [set_pulse_width]. *)
Record Channel : Type := mkChannel {
  amplitude : Q;
  ch_pulse_width : Q
}.

(** A Python dict with insertion order, as an association list. *)
Definition dict (V : Type) := list (string * V).

Fixpoint dict_get {V} (d : dict V) (k : string) : result V :=
  match d with
  | [] => Err (KeyError k)
  | (k', v) :: d' => if String.eqb k k' then Ok v else dict_get d' k
  end.

Fixpoint dict_set {V} (d : dict V) (k : string) (v : V) : dict V :=
  match d with
  | [] => [(k, v)]
  | (k', v') :: d' =>
      if String.eqb k k' then (k', v) :: d' else (k', v') :: dict_set d' k v
  end.

(** The attributes of a [HandCycling2] controller that the control tick and
    [apply_parameters] read and write. *)
Record HandCycling2 : Type := mkHC {
  angle : Q;
  intensity : dict Q;
  pulse_width : dict Q;
  channel_number : dict Z;
  stimulation_state : dict bool;
  stimulation_range : dict (Q * Q);
  list_channels : list Channel
}.

Definition set_angle (st : HandCycling2) (a : Q) : HandCycling2 :=
  mkHC a st.(intensity) st.(pulse_width) st.(channel_number)
    st.(stimulation_state) st.(stimulation_range) st.(list_channels).

(** [should_stimulation_be_active], stim_worker.py lines 189-197. *)
Definition should_stimulation_be_active (st : HandCycling2) (onset offset : Q)
  : result bool :=
  if Qltb onset offset then
    Ok (Qle_bool onset st.(angle) && Qle_bool st.(angle) offset)
  else if Qltb offset onset then
    Ok (negb (Qle_bool st.(angle) onset && Qle_bool offset st.(angle)))
  else Err (RuntimeError "The onset and offset have the same value.").





(** A state and exception monad over the controller: an exception leaves
    the mutations done before it in place, as in Python. *)
Definition M (A : Type) := HandCycling2 -> result A * HandCycling2.
Definition ret {A} (a : A) : M A := fun st => (Ok a, st).
Definition bind {A B} (m : M A) (k : A -> M B) : M B :=
  fun st => match m st with
            | (Ok a, st') => k a st'
            | (Err e, st') => (Err e, st')
            end.
Definition raise {A} (e : py_error) : M A := fun st => (Err e, st).
Definition lift {A} (r : result A) : M A := fun st => (r, st).
Definition get : M HandCycling2 := fun st => (Ok st, st).
Definition put (st : HandCycling2) : M unit := fun _ => (Ok tt, st).

Notation "x <- m ;; k" := (bind m (fun x => k))
  (at level 61, m at next level, right associativity).
Notation "m ;;; k" := (bind m (fun _ => k))
  (at level 61, right associativity).







(** [StimParameters], common_types.py: the 24 attributes set by its
    constructor (onset, offset and intensity of each of the 8 muscles). *)
Record StimParameters : Type := mkStimParameters {
  onset_deg_biceps_r : Q;
  offset_deg_biceps_r : Q;
  pulse_intensity_biceps_r : Q;
  onset_deg_triceps_r : Q;
  offset_deg_triceps_r : Q;
  pulse_intensity_triceps_r : Q;
  onset_deg_biceps_l : Q;
  offset_deg_biceps_l : Q;
  pulse_intensity_biceps_l : Q;
  onset_deg_triceps_l : Q;
  offset_deg_triceps_l : Q;
  pulse_intensity_triceps_l : Q;
  onset_deg_delt_post_r : Q;
  offset_deg_delt_post_r : Q;
  pulse_intensity_delt_post_r : Q;
  onset_deg_delt_ant_r : Q;
  offset_deg_delt_ant_r : Q;
  pulse_intensity_delt_ant_r : Q;
  onset_deg_delt_post_l : Q;
  offset_deg_delt_post_l : Q;
  pulse_intensity_delt_post_l : Q;
  onset_deg_delt_ant_l : Q;
  offset_deg_delt_ant_l : Q;
  pulse_intensity_delt_ant_l : Q
}.

(** [getattr(params, name)] on a [StimParameters] instance. *)
Definition stim_getattr (p : StimParameters) (name : string) : result Q :=
  if String.eqb name "onset_deg_biceps_r" then Ok p.(onset_deg_biceps_r) else
  if String.eqb name "offset_deg_biceps_r" then Ok p.(offset_deg_biceps_r) else
  if String.eqb name "pulse_intensity_biceps_r" then Ok p.(pulse_intensity_biceps_r) else
  if String.eqb name "onset_deg_triceps_r" then Ok p.(onset_deg_triceps_r) else
  if String.eqb name "offset_deg_triceps_r" then Ok p.(offset_deg_triceps_r) else
  if String.eqb name "pulse_intensity_triceps_r" then Ok p.(pulse_intensity_triceps_r) else
  if String.eqb name "onset_deg_biceps_l" then Ok p.(onset_deg_biceps_l) else
  if String.eqb name "offset_deg_biceps_l" then Ok p.(offset_deg_biceps_l) else
  if String.eqb name "pulse_intensity_biceps_l" then Ok p.(pulse_intensity_biceps_l) else
  if String.eqb name "onset_deg_triceps_l" then Ok p.(onset_deg_triceps_l) else
  if String.eqb name "offset_deg_triceps_l" then Ok p.(offset_deg_triceps_l) else
  if String.eqb name "pulse_intensity_triceps_l" then Ok p.(pulse_intensity_triceps_l) else
  if String.eqb name "onset_deg_delt_post_r" then Ok p.(onset_deg_delt_post_r) else
  if String.eqb name "offset_deg_delt_post_r" then Ok p.(offset_deg_delt_post_r) else
  if String.eqb name "pulse_intensity_delt_post_r" then Ok p.(pulse_intensity_delt_post_r) else
  if String.eqb name "onset_deg_delt_ant_r" then Ok p.(onset_deg_delt_ant_r) else
  if String.eqb name "offset_deg_delt_ant_r" then Ok p.(offset_deg_delt_ant_r) else
  if String.eqb name "pulse_intensity_delt_ant_r" then Ok p.(pulse_intensity_delt_ant_r) else
  if String.eqb name "onset_deg_delt_post_l" then Ok p.(onset_deg_delt_post_l) else
  if String.eqb name "offset_deg_delt_post_l" then Ok p.(offset_deg_delt_post_l) else
  if String.eqb name "pulse_intensity_delt_post_l" then Ok p.(pulse_intensity_delt_post_l) else
  if String.eqb name "onset_deg_delt_ant_l" then Ok p.(onset_deg_delt_ant_l) else
  if String.eqb name "offset_deg_delt_ant_l" then Ok p.(offset_deg_delt_ant_l) else
  if String.eqb name "pulse_intensity_delt_ant_l" then Ok p.(pulse_intensity_delt_ant_l) else
  Err (AttributeError name).

(** Python's [int(x)] on a number: truncation toward zero. *)
Definition py_int (q : Q) : Z := Z.quot (Qnum q) (Zpos (Qden q)).

Definition MUSCLE_KEYS : list string :=
  ["biceps_r"; "triceps_r"; "biceps_l"; "triceps_l"].

Definition set_stimulation_range (st : HandCycling2) (key : string) (w : Q * Q)
  : HandCycling2 :=
  mkHC st.(angle) st.(intensity) st.(pulse_width) st.(channel_number)
    st.(stimulation_state) (dict_set st.(stimulation_range) key w)
    st.(list_channels).

Definition set_intensity (st : HandCycling2) (key : string) (i : Q)
  : HandCycling2 :=
  mkHC st.(angle) (dict_set st.(intensity) key i) st.(pulse_width)
    st.(channel_number) st.(stimulation_state) st.(stimulation_range)
    st.(list_channels).

Definition set_pulse_width_of (st : HandCycling2) (key : string) (w : Q)
  : HandCycling2 :=
  mkHC st.(angle) st.(intensity) (dict_set st.(pulse_width) key w)
    st.(channel_number) st.(stimulation_state) st.(stimulation_range)
    st.(list_channels).

(** [HandCycling2.apply_parameters(self, params)], stim_worker.py
    lines 130-150. *)
Fixpoint apply_parameters_loop (params : StimParameters) (muscles : list string)
  : M unit :=
  match muscles with
  | [] => ret tt
  | muscle :: rest =>
      onset <- lift (stim_getattr params ("onset_deg_" ++ muscle)) ;;
      offset <- lift (stim_getattr params ("offset_deg_" ++ muscle)) ;;
      intensity_v <- lift (stim_getattr params ("pulse_intensity_" ++ muscle)) ;;
      pulse_width_v <- lift (stim_getattr params ("pulse_width_" ++ muscle)) ;;
      st <- get ;;
      put (set_stimulation_range st muscle
             (inject_Z (py_int onset), inject_Z (py_int offset))) ;;;
      st1 <- get ;;
      put (set_intensity st1 muscle (inject_Z (py_int intensity_v))) ;;;
      st2 <- get ;;
      put (set_pulse_width_of st2 muscle (inject_Z (py_int pulse_width_v))) ;;;
      apply_parameters_loop params rest
  end.

Definition apply_parameters (params : StimParameters) : M unit :=
  apply_parameters_loop params MUSCLE_KEYS.

(** Positional arguments of a Python call of the bound method
    [controller.apply_parameters]. *)
Inductive py_arg : Type :=
| ArgParams (p : StimParameters)
| ArgBool (b : bool).

(** Calling the bound method: Python checks the number of positional
    arguments against the signature [(self, params)] before running the
    body. *)
Definition call_apply_parameters (args : list py_arg) : M unit :=
  match args with
  | [ArgParams p] => apply_parameters p
  | [ArgBool _] => raise (AttributeError "onset_deg_biceps_r")
  | _ => raise (TypeError "apply_parameters() takes 2 positional arguments")
  end.

(** The call in [BayesianOptimizationWorker._make_an_interation],
    bo_worker.py line 352:
    [apply_parameters(parameters, self.really_change_stim_intensity)]. *)
Definition make_an_interation_apply (parameters : StimParameters)
  (really_change_stim_intensity : bool) : M unit :=
  call_apply_parameters
    [ArgParams parameters; ArgBool really_change_stim_intensity].

(** The controller as built by [HandCycling2.__init__]: only biceps_r is
    configured, with the default window [220, 10]. *)
Definition init_HandCycling2 : HandCycling2 :=
  mkHC 0
    [("biceps_r", 10)]
    [("biceps_r", 100)]
    [("biceps_r", 1%Z)]
    [("biceps_r", false)]
    [("biceps_r", (220, 10))]
    [mkChannel 10 350].

End StimWorker.

(** ** src/bayesian_optimizer.py : BayesianOptimizer bookkeeping *)
Module Optimizer.

Local Open Scope Q_scope.

(** A cost or [np.inf] (the initial [best_y]). *)
Inductive extQ : Type :=
| Fin (q : Q)
| PInf.

(** [y < best] for a float [y] and a best cost that may be [np.inf]. *)
Definition ext_ltb (y : Q) (b : extQ) : bool :=
  match b with
  | PInf => true
  | Fin q => Qltb y q
  end.

(** One entry of [PARAMS_BOUNDS] (constants.py): [low, high] of each
    parameter of a muscle. *)
Record Bounds : Type := mkBounds {
  onset_deg : Q * Q;
  offset_deg : Q * Q;
  pulse_intensity : Q * Q
}.

(** Python's [a / b] with an integer divisor. *)
Definition py_div (a : Q) (b : Z) : result Q :=
  if (b =? 0)%Z then Err ZeroDivisionError else Ok (a / inject_Z b).

(** [l[i]] for a non-negative index. *)
Definition nth_result {A} (l : list A) (i : nat) : result A :=
  match nth_error l i with Some x => Ok x | None => Err IndexError end.

(** [l[a:b]]. *)
Definition py_slice {A} (l : list A) (a b : nat) : list A :=
  firstn (b - a) (skipn a l).

(** Updating one key of a dict whose keys are all the muscle keys; the
    dicts of the optimiser are built on every muscle key in [__init__] and
    only ever read at muscle keys, so they are total functions here. *)
Definition upd {V} (f : string -> V) (k : string) (v : V) : string -> V :=
  fun k' => if String.eqb k' k then v else f k'.

Section BayesianOptimizer.

(** [self.muscle_mode.muscle_keys]. *)
Variable muscle_keys : list string.
(** [PARAMS_BOUNDS[muscle]]. *)
Variable PARAMS_BOUNDS : string -> Bounds.
(** The [k]-th draw [np.random.uniform(low, high)] of the session. *)
Variable uniform : nat -> Q -> Q -> Q.
(** [self.iteration_func(x)] when [k] evaluations were made before: the
    list of per-muscle costs, or the exception it raises. *)
Variable iteration_func : nat -> list Q -> result (list Q).
(** [GaussianProcess.fit] on the observations of one muscle: the fitted
    model, or the [LinAlgError] of [np.linalg.inv]. *)
Variable gp_model : Type.
Variable gp_fit : list (list Q) -> list Q -> result gp_model.

(** The attributes of a [BayesianOptimizer]; [rng] counts the draws of
    [np.random.uniform] so far and [evaluations] lists the calls of the
    iteration function that returned, with their costs, in call order. *)
Record BO : Type := mkBO {
  input_observed : string -> list (list Q);
  output_observed : string -> list Q;
  best_x : string -> list Q;
  best_y : string -> extQ;
  gp : string -> option gp_model;
  rng : nat;
  evaluations : list (list Q * list Q)
}.

(** [suggest_next_point()] (multi-start L-BFGS-B maximisation of the
    probability of improvement): the flat candidate vector or an exception,
    and the new count of random draws. *)
Variable suggest_next_point : BO -> result (list Q) * nat.

(** The optimiser freshly built by [BayesianOptimizer.__init__]. *)
Definition init_BO (rng0 : nat) : BO :=
  mkBO (fun _ => []) (fun _ => []) (fun _ => []) (fun _ => PInf)
    (fun _ => None) rng0 [].

Definition M (A : Type) := BO -> result A * BO.
Definition ret {A} (a : A) : M A := fun st => (Ok a, st).
Definition bind {A B} (m : M A) (k : A -> M B) : M B :=
  fun st => match m st with
            | (Ok a, st') => k a st'
            | (Err e, st') => (Err e, st')
            end.
Definition lift {A} (r : result A) : M A := fun st => (r, st).
Definition get : M BO := fun st => (Ok st, st).
Definition put (st : BO) : M unit := fun _ => (Ok tt, st).

Local Notation "x <- m ;; k" := (bind m (fun x => k))
  (at level 61, m at next level, right associativity).
Local Notation "m ;;; k" := (bind m (fun _ => k))
  (at level 61, right associativity).

(** [np.vstack((self.input_observed[muscle], x))]. *)
Definition append_input (m : string) (x : list Q) : M unit :=
  fun st => (Ok tt,
    mkBO (upd st.(input_observed) m (st.(input_observed) m ++ [x]))
      st.(output_observed) st.(best_x) st.(best_y) st.(gp) st.(rng)
      st.(evaluations)).

(** [np.vstack((self.output_observed[muscle], y))]. *)
Definition append_output (m : string) (y : Q) : M unit :=
  fun st => (Ok tt,
    mkBO st.(input_observed)
      (upd st.(output_observed) m (st.(output_observed) m ++ [y]))
      st.(best_x) st.(best_y) st.(gp) st.(rng) st.(evaluations)).

(** [if y < self.best_y[muscle]: self.best_y[muscle] = y;
    self.best_x[muscle] = x]. *)
Definition update_best (m : string) (x : list Q) (y : Q) : M unit :=
  fun st =>
    if ext_ltb y (st.(best_y) m) then
      (Ok tt, mkBO st.(input_observed) st.(output_observed)
                (upd st.(best_x) m x) (upd st.(best_y) m (Fin y))
                st.(gp) st.(rng) st.(evaluations))
    else (Ok tt, st).

(** [self.gp[muscle].fit(self.input_observed[muscle],
    self.output_observed[muscle])]. *)
Definition fit_muscle (m : string) : M unit :=
  fun st =>
    match gp_fit (st.(input_observed) m) (st.(output_observed) m) with
    | Ok g => (Ok tt, mkBO st.(input_observed) st.(output_observed)
                        st.(best_x) st.(best_y) (upd st.(gp) m (Some g))
                        st.(rng) st.(evaluations))
    | Err e => (Err e, st)
    end.

(** [np.random.uniform(low, high)]. *)
Definition draw_uniform (low high : Q) : M Q :=
  fun st => (Ok (uniform st.(rng) low high),
    mkBO st.(input_observed) st.(output_observed) st.(best_x) st.(best_y)
      st.(gp) (S st.(rng)) st.(evaluations)).

(** [self.iteration_func(x)]. *)
Definition call_iteration_func (x : list Q) : M (list Q) :=
  fun st =>
    match iteration_func (List.length st.(evaluations)) x with
    | Ok ys => (Ok ys, mkBO st.(input_observed) st.(output_observed)
                         st.(best_x) st.(best_y) st.(gp) st.(rng)
                         (st.(evaluations) ++ [(x, ys)]))
    | Err e => (Err e, st)
    end.

(** [self.suggest_next_point()]. *)
Definition suggest : M (list Q) :=
  fun st =>
    let '(r, rng') := suggest_next_point st in
    (r, mkBO st.(input_observed) st.(output_observed) st.(best_x)
          st.(best_y) st.(gp) rng' st.(evaluations)).

(** [intensity_increment], bayesian_optimizer.py lines 189-190. *)
Definition intensity_increment (m : string) (nb_initialization_cycles : nat)
  : result Q :=
  let '(low, high) := (PARAMS_BOUNDS m).(pulse_intensity) in
  py_div (high - low) (Z.of_nat nb_initialization_cycles - 1).

(** The inner loop of [initialize] building [x] and [x_all] for trial
    [i_init], lines 188-206. *)
Fixpoint build_x (i_init n : nat) (muscles : list string)
  : M (list (list Q) * list Q) :=
  match muscles with
  | [] => ret ([], [])
  | m :: rest =>
      incr <- lift (intensity_increment m n) ;;
      onset_this_time <- draw_uniform (fst (PARAMS_BOUNDS m).(onset_deg))
                                      (snd (PARAMS_BOUNDS m).(onset_deg)) ;;
      offset_this_time <- draw_uniform (fst (PARAMS_BOUNDS m).(offset_deg))
                                       (snd (PARAMS_BOUNDS m).(offset_deg)) ;;
      let intensity_this_time :=
        fst (PARAMS_BOUNDS m).(pulse_intensity) + inject_Z (Z.of_nat i_init) * incr in
      xs <- build_x i_init n rest ;;
      ret ([onset_this_time; offset_this_time; intensity_this_time] :: fst xs,
           [onset_this_time; offset_this_time; intensity_this_time] ++ snd xs)
  end.

(** Recording the costs of one initial trial, lines 209-217. *)
Fixpoint record_init (i_muscle : nat) (muscles : list string)
  (x : list (list Q)) (cost_list : list Q) : M unit :=
  match muscles with
  | [] => ret tt
  | m :: rest =>
      y <- lift (nth_result cost_list i_muscle) ;;
      xm <- lift (nth_result x i_muscle) ;;
      append_input m xm ;;;
      append_output m y ;;;
      update_best m xm y ;;;
      record_init (S i_muscle) rest x cost_list
  end.

(** The trials [i_init], ..., [i_init + k - 1] of [initialize]. *)
Fixpoint init_loop (k i_init n : nat) : M unit :=
  match k with
  | O => ret tt
  | S k' =>
      xs <- build_x i_init n muscle_keys ;;
      cost_list <- call_iteration_func (snd xs) ;;
      record_init 0 muscle_keys (fst xs) cost_list ;;;
      init_loop k' (S i_init) n
  end.

Fixpoint fit_all (muscles : list string) : M unit :=
  match muscles with
  | [] => ret tt
  | m :: rest => fit_muscle m ;;; fit_all rest
  end.

(** [BayesianOptimizer.initialize], lines 176-220. *)
Definition initialize (nb_initialization_cycles : nat) : M unit :=
  init_loop nb_initialization_cycles 0 nb_initialization_cycles ;;;
  fit_all muscle_keys.

(** Updating every muscle after one main-phase evaluation, lines 243-254. *)
Fixpoint record_iteration (i_muscle : nat) (muscles : list string)
  (next_x next_y : list Q) : M unit :=
  match muscles with
  | [] => ret tt
  | m :: rest =>
      let parameters_this_muscle :=
        py_slice next_x (i_muscle * 3) ((i_muscle + 1) * 3) in
      if negb (List.length parameters_this_muscle =? 3)%nat then lift (Err ValueError)
      else
      append_input m parameters_this_muscle ;;;
      y <- lift (nth_result next_y i_muscle) ;;
      append_output m y ;;;
      update_best m parameters_this_muscle y ;;;
      fit_muscle m ;;;
      record_iteration (S i_muscle) rest next_x next_y
  end.

Fixpoint main_loop (n_iterations : nat) : M unit :=
  match n_iterations with
  | O => ret tt
  | S k =>
      next_x <- suggest ;;
      next_y <- call_iteration_func next_x ;;
      record_iteration 0 muscle_keys next_x next_y ;;;
      main_loop k
  end.

(** [BayesianOptimizer.optimize], lines 222-259: per muscle, the pair
    ([best_x], [best_y]) of its [OptimizationResults]. *)
Definition optimize (n_iterations nb_initialization_cycles : nat)
  : M (list (string * (list Q * extQ))) :=
  initialize nb_initialization_cycles ;;;
  main_loop n_iterations ;;;
  st <- get ;;
  ret (map (fun m => (m, (st.(best_x) m, st.(best_y) m))) muscle_keys).

End BayesianOptimizer.

End Optimizer.

(** ** src/bayesian_optimizer.py : GaussianProcess and the acquisition *)
Module GP.

Local Open Scope R_scope.

Definition matrix := list (list R).

(** The numerical floor [1e-10] of [predict] and of the acquisition. *)
Definition eps : R := / 10 ^ 10.

Definition dot (u v : list R) : R :=
  fold_right Rplus 0 (map (fun '(a, b) => a * b) (combine u v)).

Definition sqeuclidean (u v : list R) : R :=
  fold_right Rplus 0 (map (fun '(a, b) => (a - b) ^ 2) (combine u v)).

Definition column (A : matrix) (j : nat) : list R := map (fun row => nth j row 0) A.

Definition transpose (A : matrix) : matrix :=
  map (column A) (seq 0 (List.length (hd [] A))).

(** [A @ B] and [A @ v]. *)
Definition matmul (A B : matrix) : matrix :=
  map (fun row => map (dot row) (transpose B)) A.
Definition matvec (A : matrix) (v : list R) : list R := map (fun row => dot row v) A.

Definition msub (A B : matrix) : matrix :=
  map (fun '(r1, r2) => map (fun '(a, b) => a - b) (combine r1 r2)) (combine A B).

(** [np.diag(A)]. *)
Definition diag (A : matrix) : list R :=
  map (fun i => nth i (nth i A []) 0) (seq 0 (List.length A)).

(** The attributes of a fitted [GaussianProcess]; [K_inv] is the matrix
    [np.linalg.inv(K + noise * I)] cached by [fit]. *)
Record GaussianProcess : Type := mkGP {
  length_scale : R;
  noise : R;
  input_training_data : matrix;
  output_training_data : list R;
  K_inv : matrix
}.

(** [GaussianProcess.rbf_kernel], lines 47-50. *)
Definition rbf_kernel (gp : GaussianProcess) (x_1 x_2 : matrix) : matrix :=
  map (fun a => map (fun b => exp (-0.5 * sqeuclidean a b / gp.(length_scale) ^ 2)) x_2) x_1.

(** [GaussianProcess.predict], lines 62-78, on a 2-D [test_data] (a 1-D
    query is first reshaped to one row). *)
Definition predict (gp : GaussianProcess) (test_data : matrix) : list R * list R :=
  let K_star := rbf_kernel gp test_data gp.(input_training_data) in
  let K_star_star := rbf_kernel gp test_data test_data in
  let mean := matvec (matmul K_star gp.(K_inv)) gp.(output_training_data) in
  let var := msub K_star_star (matmul (matmul K_star gp.(K_inv)) (transpose K_star)) in
  let std := map (fun v => sqrt (Rmax v eps)) (diag var) in
  (mean, std).

Section Acquisition.

(** [scipy.stats.norm.cdf]. *)
Variable norm_cdf : R -> R.

(** One entry of [probability_of_improvement]:
    [norm.cdf((best_y - mean - xi) / np.maximum(std, 1e-10))]. *)
Definition pi_value (best_y xi mean std : R) : R :=
  norm_cdf ((best_y - mean - xi) / Rmax std eps).

(** [BayesianOptimizer.probability_of_improvement], lines 120-135, for the
    muscle whose GP is [gp] and whose best cost is [best_y]. *)
Definition probability_of_improvement (gp : GaussianProcess) (best_y xi : R)
  (x : matrix) : list R :=
  let '(mean, std) := predict gp x in
  map (fun '(m, s) => pi_value best_y xi m s) (combine mean std).

End Acquisition.

End GP.

(** ** src/pedal_worker.py and src/bo_worker.py : cycle data *)
Module Pedal.

Local Open Scope R_scope.

Definition Rltb (x y : R) : bool := if Rlt_dec x y then true else false.

(** Python's float floor division [x // y] and modulo [x % y]. *)
Definition py_floordiv (x y : R) : R := IZR (Int_part (x / y)).
Definition py_mod (x y : R) : R := x - y * py_floordiv x y.

(** [np.sign]. *)
Definition np_sign (x : R) : Z :=
  match total_order_T x 0 with
  | inleft (left _) => (-1)%Z
  | inleft (right _) => 0%Z
  | inright _ => 1%Z
  end.

(** [PedalWorker.rotated_angle], pedal_worker.py lines 105-112. *)
Definition rotated_angle (angles : list R) : list R :=
  map (fun a => py_mod (a - PI / 2) (2 * PI)) angles.

Definition slice (l : list R) (a b : nat) : list R := firstn (b - a) (skipn a l).

(** The dict returned by [get_last_cycles_data]. *)
Record CycleData : Type := mkCycleData {
  times_vector : list (list R);
  cycle_angles : list (list R);
  left_power : list (list R);
  right_power : list (list R);
  total_power : list (list R)
}.

Section Segmentation.

(** The columns of the data collector buffer. *)
Variables (times angles left right total : list R).
Variable nb_cycles_to_keep : nat.

(** The [while] loop of [BayesianOptimizationWorker.get_last_cycles_data],
    bo_worker.py lines 139-160, from index [last_idx] down to 1. *)
Fixpoint scan_cycles (last_idx : nat) (last_bound : option nat) (d : CycleData)
  : CycleData :=
  match last_idx with
  | O => d
  | S p =>
      if (List.length d.(times_vector) <? nb_cycles_to_keep)%nat then
        let current_angle := nth (S p) angles 0 in
        let previous_angle := nth p angles 0 in
        let nb_rotations := py_floordiv current_angle (2 * PI) in
        if negb (Z.eqb (np_sign (current_angle - nb_rotations * 2 * PI))
                       (np_sign (previous_angle - nb_rotations * 2 * PI))) then
          match last_bound with
          | None => scan_cycles p (Some (S p)) d
          | Some end_idx =>
              let start_idx := S p in
              scan_cycles p (Some (S p))
                (mkCycleData
                   (slice times start_idx end_idx :: d.(times_vector))
                   (rotated_angle (slice angles start_idx end_idx) :: d.(cycle_angles))
                   (slice left start_idx end_idx :: d.(left_power))
                   (slice right start_idx end_idx :: d.(right_power))
                   (slice total start_idx end_idx :: d.(total_power)))
          end
        else scan_cycles p last_bound d
      else d
  end.

Definition get_last_cycles_data : CycleData :=
  scan_cycles (List.length angles - 1) None (mkCycleData [] [] [] [] []).

End Segmentation.

(** The angle check opening each per-muscle cost function
    ([_biceps_r_cost] and its three siblings), bo_worker.py lines 186-188:
    [np.hstack] of the cycle angles (a [ValueError] on no cycle), then the
    range guard. *)
Definition cost_angle_guard (d : CycleData) : result (list R) :=
  match d.(cycle_angles) with
  | [] => Err ValueError
  | l =>
      let a := List.concat l in
      if existsb (fun x => Rltb x 0 || Rltb (2 * PI) x) a then
        Err (RuntimeError
          "Something went wrong with angle wrapping, angles should be in [0, 2pi]"%string)
      else Ok a
  end.

End Pedal.

(** ** src/pedal_worker.py and src/bo_worker.py : the angle rotation and cycle data in binary64 *)
Module PedalFloat.

Import PrimFloat SpecFloat FloatOps.
Local Open Scope float_scope.

(** C's [fmod] (the exact remainder of [x / y], truncated, with the sign
    of [x]) on the exact values of two floats. *)
Definition fmod_sf (x y : spec_float) : spec_float :=
  match x, y with
  | S754_nan, _ | _, S754_nan => S754_nan
  | S754_infinity _, _ => S754_nan
  | _, S754_zero _ => S754_nan
  | S754_zero s, _ => S754_zero s
  | S754_finite _ _ _, S754_infinity _ => x
  | S754_finite sx mx ex, S754_finite _ my ey =>
      let e := Z.min ex ey in
      let X := (Z.pos mx * 2 ^ (ex - e))%Z in
      let Y := (Z.pos my * 2 ^ (ey - e))%Z in
      binary_normalize 53 1024 (cond_Zopp sx (X mod Y)) e sx
  end.

Definition fmod (x y : float) : float := SF2Prim (fmod_sf (Prim2SF x) (Prim2SF y)).

(** numpy's float64 [a % b] ([npy_remainder] through [npy_divmod]): the
    [fmod] result, moved by [b] when its sign differs from that of [b]. *)
Definition np_remainder (a b : float) : float :=
  if b =? 0 then fmod a b else
  let m := fmod a b in
  if negb (m =? 0) then
    (if Bool.eqb (b <? 0) (m <? 0) then m else m + b)
  else (if b <? 0 then -0 else 0).

(** [np.pi]. *)
Definition np_pi : float := 0x1.921fb54442d18p+1.

(** [PedalWorker.rotated_angle], pedal_worker.py lines 105-112. *)
Definition rotated_angle (angles : list float) : list float :=
  map (fun a => np_remainder (a - np_pi / 2) (2 * np_pi)) angles.

(** [np.sign] on a float64: [-1.], [0.] or [1.], and NaN for NaN. *)
Definition np_sign (x : float) : float :=
  if x <? 0 then -1 else if 0 <? x then 1 else if x =? 0 then 0 else x.

Definition slice (l : list float) (a b : nat) : list float := firstn (b - a) (skipn a l).

(** The dict returned by [get_last_cycles_data], over float64 arrays. *)
Record CycleData : Type := mkCycleData {
  times_vector : list (list float);
  cycle_angles : list (list float);
  left_power : list (list float);
  right_power : list (list float);
  total_power : list (list float)
}.

Section Segmentation.

(** numpy's float64 floor division [a // b], left abstract. *)
Variable floor_divide : float -> float -> float.

(** The columns of the data collector buffer. *)
Variables (times angles left right total : list float).
Variable nb_cycles_to_keep : nat.

(** The [while] loop of [BayesianOptimizationWorker.get_last_cycles_data],
    bo_worker.py lines 139-160, from index [last_idx] down to 1; numpy's
    [!=] on two floats is [negb (_ =? _)]. *)
Fixpoint scan_cycles (last_idx : nat) (last_bound : option nat) (d : CycleData)
  : CycleData :=
  match last_idx with
  | O => d
  | S p =>
      if (List.length d.(times_vector) <? nb_cycles_to_keep)%nat then
        let current_angle := nth (S p) angles 0 in
        let previous_angle := nth p angles 0 in
        let nb_rotations := floor_divide current_angle (2 * np_pi) in
        if negb (np_sign (current_angle - nb_rotations * 2 * np_pi) =?
                 np_sign (previous_angle - nb_rotations * 2 * np_pi)) then
          match last_bound with
          | None => scan_cycles p (Some (S p)) d
          | Some end_idx =>
              let start_idx := S p in
              scan_cycles p (Some (S p))
                (mkCycleData
                   (slice times start_idx end_idx :: d.(times_vector))
                   (rotated_angle (slice angles start_idx end_idx) :: d.(cycle_angles))
                   (slice left start_idx end_idx :: d.(left_power))
                   (slice right start_idx end_idx :: d.(right_power))
                   (slice total start_idx end_idx :: d.(total_power)))
          end
        else scan_cycles p last_bound d
      else d
  end.

Definition get_last_cycles_data : CycleData :=
  scan_cycles (List.length angles - 1) None (mkCycleData [] [] [] [] []).

End Segmentation.

(** The angle check of the per-muscle cost functions, bo_worker.py lines
    186-188, on float64 angles: [np.any(angles < 0) or np.any(angles >
    2*np.pi)]. *)
Definition cost_angle_guard (d : CycleData) : result (list float) :=
  match d.(cycle_angles) with
  | [] => Err ValueError
  | l =>
      let a := List.concat l in
      if existsb (fun x => (x <? 0) || (2 * np_pi <? x)) a then
        Err (RuntimeError
          "Something went wrong with angle wrapping, angles should be in [0, 2pi]"%string)
      else Ok a
  end.

End PedalFloat.

(** ** src/constants.py : the stimulation windows and their search bounds *)
Module Constants.

Import StimWorker.
Local Open Scope Q_scope.
Local Open Scope string_scope.

(** Python's [x % y] on numbers, for a positive divisor [y]: the result
    has the sign of [y]. *)
Definition py_mod (x y : Q) : Q := x - y * inject_Z (Qfloor (x / y)).

(** [STIMULATION_RANGE], constants.py lines 4-13: [onset, offset] of the
    default window of each muscle, in degrees. *)
Definition STIMULATION_RANGE : dict (Q * Q) :=
  [("biceps_r", (130, 280)); ("triceps_r", (290, 90));
   ("biceps_l", (310, 100)); ("triceps_l", (110, 270));
   ("delt_post_r", (130, 280)); ("delt_ant_r", (290, 90));
   ("delt_post_l", (310, 100)); ("delt_ant_l", (110, 270))].

(** [angular_distance], lines 19-24. *)
Definition angular_distance (angle1 angle2 : Q) : Q :=
  let diff := py_mod (angle2 - angle1) 360 in
  if Qltb 180 diff then diff - 360 else diff.

(** [smaller_than_angle], lines 26-28 (a chained comparison: the distance
    is computed once). *)
Definition smaller_than_angle (angle1 angle2 : Q) : bool :=
  let d := angular_distance angle1 angle2 in
  Qle_bool 0 d && Qle_bool d 180.

(** [mean_angle], lines 30-33. *)
Definition mean_angle (angle1 angle2 : Q) : Q :=
  let diff := angular_distance angle1 angle2 in
  py_mod (angle1 + diff / 2) 360.

(** [wrap_angle], lines 35-37. *)
Definition wrap_angle (angle : Q) : Q := py_mod angle 360.

(** The 8-tuple returned by [get_bounds_for_muscle], in its order. *)
Record MuscleBounds : Type := mkMuscleBounds {
  muscle1_min_onset : Q;
  muscle1_max_onset : Q;
  muscle1_min_offset : Q;
  muscle1_max_offset : Q;
  muscle2_min_onset : Q;
  muscle2_max_onset : Q;
  muscle2_min_offset : Q;
  muscle2_max_offset : Q
}.

(** [get_bounds_for_muscle], lines 40-88, reading the module global
    [STIMULATION_RANGE] passed as [stimulation_range]; the lookups of
    lines 44 and 45 raise [KeyError] on a missing muscle, the later ones
    repeat them. *)
Definition get_bounds_for_muscle (stimulation_range : dict (Q * Q))
  (muscle1_name muscle2_name : string) (default_min_angle default_max_angle : Q)
  : result MuscleBounds :=
  match dict_get stimulation_range muscle1_name with
  | Err e => Err e
  | Ok (on1, off1) =>
  match dict_get stimulation_range muscle2_name with
  | Err e => Err e
  | Ok (on2, off2) =>
      let muscle1_onset_min := wrap_angle (on1 - default_min_angle) in
      let muscle2_offset_max := wrap_angle (off2 + default_max_angle) in
      let '(m1_min_onset, m2_max_offset) :=
        if smaller_than_angle muscle1_onset_min muscle2_offset_max then
          let m_angle := mean_angle on1 off2 in
          (angular_distance on1 m_angle, angular_distance m_angle off2)
        else (- default_min_angle, default_max_angle) in
      let m1_max_onset := default_max_angle in
      let m2_min_offset := - default_min_angle in
      let muscle2_onset_min := wrap_angle (on2 - default_min_angle) in
      let muscle1_offset_max := wrap_angle (off1 + default_max_angle) in
      let '(m2_min_onset, m1_max_offset) :=
        if smaller_than_angle muscle2_onset_min muscle1_offset_max then
          let m_angle := mean_angle on2 off1 in
          (angular_distance on2 m_angle, angular_distance m_angle off1)
        else (- default_min_angle, default_max_angle) in
      let m2_max_onset := default_max_angle in
      let m1_min_offset := - default_min_angle in
      Ok (mkMuscleBounds m1_min_onset m1_max_onset m1_min_offset m1_max_offset
            m2_min_onset m2_max_onset m2_min_offset m2_max_offset)
  end
  end.

(** [set_param_bounds], lines 90-188: the dict [PARAMS_BOUNDS] of the
    search bounds of every muscle, [delt_post_l] taking the bounds
    computed for [delt_ant_l] (lines 175-180). *)
Definition set_param_bounds : result (dict Optimizer.Bounds) :=
  match get_bounds_for_muscle STIMULATION_RANGE "biceps_r" "triceps_r" 30 30,
        get_bounds_for_muscle STIMULATION_RANGE "biceps_l" "triceps_l" 30 30,
        get_bounds_for_muscle STIMULATION_RANGE "delt_post_r" "delt_ant_r" 30 30,
        get_bounds_for_muscle STIMULATION_RANGE "delt_post_l" "delt_ant_l" 30 30 with
  | Ok br, Ok bl, Ok dr, Ok dl =>
      let first b := Optimizer.mkBounds
        (muscle1_min_onset b, muscle1_max_onset b)
        (muscle1_min_offset b, muscle1_max_offset b) (5, 15) in
      let second b := Optimizer.mkBounds
        (muscle2_min_onset b, muscle2_max_onset b)
        (muscle2_min_offset b, muscle2_max_offset b) (5, 15) in
      Ok [("biceps_r", first br); ("triceps_r", second br);
          ("biceps_l", first bl); ("triceps_l", second bl);
          ("delt_post_r", first dr); ("delt_ant_r", second dr);
          ("delt_post_l", second dl); ("delt_ant_l", second dl)]
  | Err e, _, _, _ | _, Err e, _, _ | _, _, Err e, _ | _, _, _, Err e => Err e
  end.

End Constants.

(** ** src/common_types.py : StimParameters and its conversions *)
Module CommonTypes.

Import StimWorker.
Local Open Scope Q_scope.
Local Open Scope string_scope.

(** The [muscle_mode] argument: an instance of one of the three classes of
    [MuscleMode], or any other object. *)
Inductive MuscleMode : Type :=
| BICEPS_TRICEPS
| DELTOIDS
| BOTH
| OtherMode.

(** [StimParameters.to_flat_vector], lines 178-207. *)
Definition to_flat_vector (p : StimParameters) : list Q :=
  [p.(onset_deg_biceps_r); p.(offset_deg_biceps_r); p.(pulse_intensity_biceps_r);
   p.(onset_deg_triceps_r); p.(offset_deg_triceps_r); p.(pulse_intensity_triceps_r);
   p.(onset_deg_biceps_l); p.(offset_deg_biceps_l); p.(pulse_intensity_biceps_l);
   p.(onset_deg_triceps_l); p.(offset_deg_triceps_l); p.(pulse_intensity_triceps_l);
   p.(onset_deg_delt_post_r); p.(offset_deg_delt_post_r); p.(pulse_intensity_delt_post_r);
   p.(onset_deg_delt_ant_r); p.(offset_deg_delt_ant_r); p.(pulse_intensity_delt_ant_r);
   p.(onset_deg_delt_post_l); p.(offset_deg_delt_post_l); p.(pulse_intensity_delt_post_l);
   p.(onset_deg_delt_ant_l); p.(offset_deg_delt_ant_l); p.(pulse_intensity_delt_ant_l)].

(** [StimParameters.from_flat_vector], lines 80-144: the constructor
    fills the named attributes from [x[0]], [x[1]], ... and leaves the
    others at their default [0]; reading past the end of [x] raises
    [IndexError], any other mode raises [ValueError]. *)
Definition from_flat_vector (x : list Q) (muscle_mode : MuscleMode)
  : result StimParameters :=
  match muscle_mode with
  | BICEPS_TRICEPS =>
      match x with
      | x0 :: x1 :: x2 :: x3 :: x4 :: x5 :: x6 :: x7 :: x8 :: x9 :: x10 :: x11 :: _ =>
          Ok (mkStimParameters x0 x1 x2 x3 x4 x5 x6 x7 x8 x9 x10 x11
                0 0 0 0 0 0 0 0 0 0 0 0)
      | _ => Err IndexError
      end
  | DELTOIDS =>
      match x with
      | x0 :: x1 :: x2 :: x3 :: x4 :: x5 :: x6 :: x7 :: x8 :: x9 :: x10 :: x11 :: _ =>
          Ok (mkStimParameters 0 0 0 0 0 0 0 0 0 0 0 0
                x0 x1 x2 x3 x4 x5 x6 x7 x8 x9 x10 x11)
      | _ => Err IndexError
      end
  | BOTH =>
      match x with
      | x0 :: x1 :: x2 :: x3 :: x4 :: x5 :: x6 :: x7 :: x8 :: x9 :: x10 :: x11
        :: x12 :: x13 :: x14 :: x15 :: x16 :: x17 :: x18 :: x19 :: x20 :: x21
        :: x22 :: x23 :: _ =>
          Ok (mkStimParameters x0 x1 x2 x3 x4 x5 x6 x7 x8 x9 x10 x11
                x12 x13 x14 x15 x16 x17 x18 x19 x20 x21 x22 x23)
      | _ => Err IndexError
      end
  | OtherMode => Err ValueError
  end.

(** The local [mod_angle] of [add_angles_offset], lines 213-220. *)
Definition mod_angle (angle : Q) : Q :=
  if Qltb angle 0 then angle + 360
  else if Qle_bool 360 angle then Constants.py_mod angle 360
  else angle.

(** [STIMULATION_RANGE[muscle][0]] and [STIMULATION_RANGE[muscle][1]]. *)
Definition range_onset (muscle : string) : result Q :=
  match dict_get Constants.STIMULATION_RANGE muscle with
  | Ok (on, _) => Ok on
  | Err e => Err e
  end.
Definition range_offset (muscle : string) : result Q :=
  match dict_get Constants.STIMULATION_RANGE muscle with
  | Ok (_, off) => Ok off
  | Err e => Err e
  end.

Definition rbind {A B} (r : result A) (k : A -> result B) : result B :=
  match r with Ok a => k a | Err e => Err e end.
Local Notation "x <-? r ;; k" := (rbind r (fun x => k))
  (at level 61, r at next level, right associativity).

(** [StimParameters.add_angles_offset], lines 209-247. *)
Definition add_angles_offset (p : StimParameters) : result StimParameters :=
  a1 <-? range_onset "biceps_r" ;; b1 <-? range_offset "biceps_r" ;;
  a2 <-? range_onset "triceps_r" ;; b2 <-? range_offset "triceps_r" ;;
  a3 <-? range_onset "biceps_l" ;; b3 <-? range_offset "biceps_l" ;;
  a4 <-? range_onset "triceps_l" ;; b4 <-? range_offset "triceps_l" ;;
  a5 <-? range_onset "delt_post_r" ;; b5 <-? range_offset "delt_post_r" ;;
  a6 <-? range_onset "delt_ant_r" ;; b6 <-? range_offset "delt_ant_r" ;;
  a7 <-? range_onset "delt_post_l" ;; b7 <-? range_offset "delt_post_l" ;;
  a8 <-? range_onset "delt_ant_l" ;; b8 <-? range_offset "delt_ant_l" ;;
  Ok (mkStimParameters
    (mod_angle (p.(onset_deg_biceps_r) + a1)) (mod_angle (p.(offset_deg_biceps_r) + b1))
    p.(pulse_intensity_biceps_r)
    (mod_angle (p.(onset_deg_triceps_r) + a2)) (mod_angle (p.(offset_deg_triceps_r) + b2))
    p.(pulse_intensity_triceps_r)
    (mod_angle (p.(onset_deg_biceps_l) + a3)) (mod_angle (p.(offset_deg_biceps_l) + b3))
    p.(pulse_intensity_biceps_l)
    (mod_angle (p.(onset_deg_triceps_l) + a4)) (mod_angle (p.(offset_deg_triceps_l) + b4))
    p.(pulse_intensity_triceps_l)
    (mod_angle (p.(onset_deg_delt_post_r) + a5)) (mod_angle (p.(offset_deg_delt_post_r) + b5))
    p.(pulse_intensity_delt_post_r)
    (mod_angle (p.(onset_deg_delt_ant_r) + a6)) (mod_angle (p.(offset_deg_delt_ant_r) + b6))
    p.(pulse_intensity_delt_ant_r)
    (mod_angle (p.(onset_deg_delt_post_l) + a7)) (mod_angle (p.(offset_deg_delt_post_l) + b7))
    p.(pulse_intensity_delt_post_l)
    (mod_angle (p.(onset_deg_delt_ant_l) + a8)) (mod_angle (p.(offset_deg_delt_ant_l) + b8))
    p.(pulse_intensity_delt_ant_l)).

(** [StimParameters.from_dict], lines 146-176: [param_dict[key]] for the
    24 keyword arguments in order, a [KeyError] on the first missing key. *)
Definition from_dict (param_dict : dict Q) : result StimParameters :=
  v1 <-? dict_get param_dict "onset_deg_biceps_r" ;;
  v2 <-? dict_get param_dict "offset_deg_biceps_r" ;;
  v3 <-? dict_get param_dict "pulse_intensity_biceps_r" ;;
  v4 <-? dict_get param_dict "onset_deg_triceps_r" ;;
  v5 <-? dict_get param_dict "offset_deg_triceps_r" ;;
  v6 <-? dict_get param_dict "pulse_intensity_triceps_r" ;;
  v7 <-? dict_get param_dict "onset_deg_biceps_l" ;;
  v8 <-? dict_get param_dict "offset_deg_biceps_l" ;;
  v9 <-? dict_get param_dict "pulse_intensity_biceps_l" ;;
  v10 <-? dict_get param_dict "onset_deg_triceps_l" ;;
  v11 <-? dict_get param_dict "offset_deg_triceps_l" ;;
  v12 <-? dict_get param_dict "pulse_intensity_triceps_l" ;;
  v13 <-? dict_get param_dict "onset_deg_delt_post_r" ;;
  v14 <-? dict_get param_dict "offset_deg_delt_post_r" ;;
  v15 <-? dict_get param_dict "pulse_intensity_delt_post_r" ;;
  v16 <-? dict_get param_dict "onset_deg_delt_ant_r" ;;
  v17 <-? dict_get param_dict "offset_deg_delt_ant_r" ;;
  v18 <-? dict_get param_dict "pulse_intensity_delt_ant_r" ;;
  v19 <-? dict_get param_dict "onset_deg_delt_post_l" ;;
  v20 <-? dict_get param_dict "offset_deg_delt_post_l" ;;
  v21 <-? dict_get param_dict "pulse_intensity_delt_post_l" ;;
  v22 <-? dict_get param_dict "onset_deg_delt_ant_l" ;;
  v23 <-? dict_get param_dict "offset_deg_delt_ant_l" ;;
  v24 <-? dict_get param_dict "pulse_intensity_delt_ant_l" ;;
  Ok (mkStimParameters v1 v2 v3 v4 v5 v6 v7 v8 v9 v10 v11 v12 v13 v14 v15 v16 v17 v18 v19 v20 v21 v22 v23 v24).

End CommonTypes.

(** ** src/bo_worker.py : cycle counting and the per-muscle costs *)
Module BoWorker.

Import Pedal.
Local Open Scope R_scope.
Local Open Scope string_scope.

(** The boundary test of the cycle scans at index [i]: the angle and the
    previous one, each reduced by the rotations of the current angle, have
    different signs ([i] is at least 1, so [Nat.pred i] is [i - 1]). *)
Definition is_cycle_bound (angles : list R) (i : nat) : bool :=
  let current_angle := nth i angles 0 in
  let previous_angle := nth (Nat.pred i) angles 0 in
  let nb_rotations := py_floordiv current_angle (2 * PI) in
  negb (Z.eqb (np_sign (current_angle - nb_rotations * 2 * PI))
              (np_sign (previous_angle - nb_rotations * 2 * PI))).

(** [BayesianOptimizationWorker.get_num_cycles], bo_worker.py
    lines 101-115. *)
Definition get_num_cycles (angles : list R) : nat :=
  fold_left (fun num_cycles i => if is_cycle_bound angles i then S num_cycles else num_cycles)
    (seq 1 (List.length angles - 1)) 0%nat.

(** [np.radians]. *)
Definition radians (deg : R) : R := deg * PI / 180.

(** [CUTOFF_ANGLES], constants.py lines 14-17. *)
Definition CUTOFF_right : R * R := (110, 285).
Definition CUTOFF_left : R * R := (105, 290).

(** [np.hstack] of a list of 1-D arrays: [ValueError] on an empty list. *)
Definition np_hstack (l : list (list R)) : result (list R) :=
  match l with [] => Err ValueError | _ => Ok (List.concat l) end.

(** [np.where(mask)[0]]. *)
Definition np_where (mask : list bool) : list nat :=
  map fst (filter snd (combine (seq 0 (List.length mask)) mask)).

(** [a[idx]] with an integer index array: [IndexError] on an index past
    the end. *)
Fixpoint take_indices (a : list R) (idx : list nat) : result (list R) :=
  match idx with
  | [] => Ok []
  | i :: rest =>
      match nth_error a i, take_indices a rest with
      | Some x, Ok xs => Ok (x :: xs)
      | None, _ => Err IndexError
      | _, Err e => Err e
      end
  end.

(** [-np.sum(p ** 2)]. *)
Definition neg_sum_sq (p : list R) : R := - fold_right Rplus 0 (map (fun v => v ^ 2) p).

(** The body shared by the four cost functions after the angle guard:
    [power] is the column of the cycle data they read and [in_range]
    their selection of angles; the intensity is read last from the
    controller's [intensity] dict. *)
Definition muscle_cost (d : CycleData) (power : list (list R)) (in_range : R -> bool)
  (intensity : StimWorker.dict Q) (muscle : string) : result R :=
  match cost_angle_guard d with
  | Err e => Err e
  | Ok angles =>
      let angles_in_range_indices := np_where (map in_range angles) in
      match np_hstack power with
      | Err e => Err e
      | Ok p =>
          match take_indices p angles_in_range_indices with
          | Err e => Err e
          | Ok sel =>
              let power := neg_sum_sq sel in
              match StimWorker.dict_get intensity muscle with
              | Err e => Err e
              | Ok i => Ok (power + 0.05 * (Q2R i) ^ 2)
              end
          end
      end
  end.

(** [_biceps_r_cost], lines 184-212: angles strictly between the right
    cutoffs. *)
Definition biceps_r_cost (d : CycleData) (intensity : StimWorker.dict Q) : result R :=
  let lower_bound := radians (fst CUTOFF_right) in
  let upper_bound := radians (snd CUTOFF_right) in
  muscle_cost d (right_power d)
    (fun a => Rltb lower_bound a && Rltb a upper_bound) intensity "biceps_r".

(** [_triceps_r_cost], lines 214-244. *)
Definition triceps_r_cost (d : CycleData) (intensity : StimWorker.dict Q) : result R :=
  let lower_bound := radians (snd CUTOFF_right) in
  let upper_bound := radians (fst CUTOFF_right) in
  muscle_cost d (right_power d)
    (fun a => negb (Rltb a lower_bound && Rltb upper_bound a)) intensity "triceps_r".

(** [_biceps_l_cost], lines 246-275. *)
Definition biceps_l_cost (d : CycleData) (intensity : StimWorker.dict Q) : result R :=
  let lower_bound := radians (snd CUTOFF_left) in
  let upper_bound := radians (fst CUTOFF_left) in
  muscle_cost d (left_power d)
    (fun a => negb (Rltb a lower_bound && Rltb upper_bound a)) intensity "biceps_l".

(** [_triceps_l_cost], lines 277-304. *)
Definition triceps_l_cost (d : CycleData) (intensity : StimWorker.dict Q) : result R :=
  let lower_bound := radians (fst CUTOFF_left) in
  let upper_bound := radians (snd CUTOFF_left) in
  muscle_cost d (left_power d)
    (fun a => Rltb lower_bound a && Rltb a upper_bound) intensity "triceps_l".

End BoWorker.

(** ** src/pedal_worker.py : the unlimited cycle scan *)
Module PedalWorker.

Import Pedal.
Local Open Scope R_scope.

Section Segmentation.

Variables (times angles left right total : list R).

(** The [while] loop of [PedalWorker.get_last_cycle_data],
    pedal_worker.py lines 133-155: the scan of [get_last_cycles_data]
    without the limit on the number of cycles. *)
Fixpoint scan_all_cycles (last_idx : nat) (last_bound : option nat) (d : CycleData)
  : CycleData :=
  match last_idx with
  | O => d
  | S p =>
      let current_angle := nth (S p) angles 0 in
      let previous_angle := nth p angles 0 in
      let nb_rotations := py_floordiv current_angle (2 * PI) in
      if negb (Z.eqb (np_sign (current_angle - nb_rotations * 2 * PI))
                     (np_sign (previous_angle - nb_rotations * 2 * PI))) then
        match last_bound with
        | None => scan_all_cycles p (Some (S p)) d
        | Some end_idx =>
            let start_idx := S p in
            scan_all_cycles p (Some (S p))
              (mkCycleData
                 (slice times start_idx end_idx :: d.(times_vector))
                 (rotated_angle (slice angles start_idx end_idx) :: d.(cycle_angles))
                 (slice left start_idx end_idx :: d.(left_power))
                 (slice right start_idx end_idx :: d.(right_power))
                 (slice total start_idx end_idx :: d.(total_power)))
        end
      else scan_all_cycles p last_bound d
  end.

(** [PedalWorker.get_last_cycle_data], lines 114-157. *)
Definition get_last_cycle_data : CycleData :=
  scan_all_cycles (List.length angles - 1) None (mkCycleData [] [] [] [] []).

End Segmentation.

End PedalWorker.

(** ** src/pedal_worker.py : the loop of [PedalWorker.run], in binary64 *)
Module PedalWorkerFloat.

Import PrimFloat PedalFloat.
Local Open Scope float_scope.

(** Python's float [x % y] ([float_rem] of CPython): the [fmod] result,
    moved by [y] when its sign differs from that of [y]. The divisor is
    the non-zero constant [360.0] below, so the [ZeroDivisionError] branch
    of [float_rem] is left out. *)
Definition py_float_mod (x y : float) : float :=
  let m := fmod x y in
  if negb (m =? 0) then
    (if Bool.eqb (y <? 0) (m <? 0) then m else m + y)
  else (if y <? 0 then -0 else 0).

(** The attributes of a [PedalWorker] written by its loop. *)
Record PedalState : Type := mkPedalState {
  _angle : float;
  _speed : float;
  _left_power : float;
  _right_power : float;
  _previous_angle : float;
  _previous_speed : float;
  _previous_time : float;
  _angle_estimate : float
}.

(** The values set by [__init__], lines 41-50. *)
Definition init_PedalState : PedalState := mkPedalState 0 0 0 0 0 0 0 0.

(** [update_sensor(angle, speed)] at time [now], lines 71-83. *)
Definition update_sensor (st : PedalState) (angle speed now : float) : PedalState :=
  mkPedalState st.(_angle) st.(_speed) st.(_left_power) st.(_right_power)
    angle speed now angle.

(** [calculate_angle()] at time [now], lines 85-93. *)
Definition calculate_angle (st : PedalState) (now : float) : PedalState :=
  let dt := now - st.(_previous_time) in
  mkPedalState st.(_angle) st.(_speed) st.(_left_power) st.(_right_power)
    st.(_previous_angle) st.(_previous_speed) st.(_previous_time)
    (py_float_mod (st.(_previous_angle) + st.(_previous_speed) * dt) 360).

(** [get_latest_estimated_angle()], lines 100-103. *)
Definition get_latest_estimated_angle (st : PedalState) : float := st.(_angle_estimate).

(** [math.degrees]: [x * (180.0 / pi)]. *)
Definition degrees (x : float) : float := x * (180 / np_pi).

(** What one pass of the loop of [run] (lines 170-205) reads: nothing
    ([data] is [None], empty or has no values: the loop waits), or the last
    row's angle and speed in radians, its two powers, and the time at which
    [update_sensor] or [calculate_angle] reads the clock. *)
Inductive Sample : Type :=
| NoData
| Row (a18 a35 a36 a37 now : float).

(** Python's [x != y] on floats when [y] may still be the initial [None]. *)
Definition neq_opt (x : float) (y : option float) : bool :=
  match y with None => true | Some v => negb (x =? v) end.

(** One pass of the loop of [run]; [prev] holds the locals
    [prev_angle] and [prev_speed]. *)
Definition run_step (s : PedalState * (option float * option float)) (sample : Sample)
  : PedalState * (option float * option float) :=
  let '(st, (prev_angle, prev_speed)) := s in
  match sample with
  | NoData => s
  | Row a18 a35 a36 a37 now =>
      let angle := py_float_mod (degrees a18) 360 in
      let speed := degrees a35 in
      let left_power := a36 in
      let right_power := a37 in
      let changed := neq_opt angle prev_angle || neq_opt speed prev_speed
        || neq_opt left_power (Some st.(_left_power))
        || neq_opt right_power (Some st.(_right_power)) in
      if changed then
        let st1 := update_sensor st angle speed now in
        (mkPedalState angle speed left_power right_power
           st1.(_previous_angle) st1.(_previous_speed) st1.(_previous_time)
           st1.(_angle_estimate), (Some angle, Some speed))
      else (calculate_angle st now, (prev_angle, prev_speed))
  end.

(** The loop of [run] over a sequence of passes, from [prev_angle] and
    [prev_speed] at [None]. *)
Definition run (st : PedalState) (samples : list Sample)
  : PedalState * (option float * option float) :=
  fold_left run_step samples (st, (None, None)).

End PedalWorkerFloat.

(** ** src/bayesian_optimizer.py : the multi-start search of the next point *)
Module Suggest.

Import Optimizer.
Local Open Scope Q_scope.

Section SuggestNextPoint.

(** [PARAMS_BOUNDS[muscle]]. *)
Variable PARAMS_BOUNDS : string -> Bounds.
(** The [k]-th call [np.random.uniform(low, high)] of the session, on the
    vectors of lower and upper bounds. *)
Variable uniform_vec : nat -> list Q -> list Q -> list Q.
(** [minimize(lambda x: self._acquisition_to_minimize(x, muscle), x0=x0,
    bounds=self.bounds(muscle), method='L-BFGS-B')]: the pair
    ([result.x], [result.fun]); the acquisition of a muscle does not
    change during the call. *)
Variable minimize : string -> list Q -> list Q * Q.

(** [BayesianOptimizer.bounds(muscle)], lines 116-118: the rows
    [low, high] of the muscle's parameters, in the order of the keys. *)
Definition bounds (muscle : string) : list (Q * Q) :=
  let b := PARAMS_BOUNDS muscle in [onset_deg b; offset_deg b; pulse_intensity b].

(** The inner loop of [suggest_next_point], lines 151-171, over the
    [n] remaining restarts; [rng] counts the calls of
    [np.random.uniform] so far. *)
Fixpoint restarts (muscle : string) (n : nat) (rng : nat)
  (best_x : option (list Q)) (best_acquisition : extQ) : option (list Q) * nat :=
  match n with
  | O => (best_x, rng)
  | S n' =>
      let x0 := uniform_vec rng (map fst (bounds muscle)) (map snd (bounds muscle)) in
      let '(result_x, result_fun) := minimize muscle x0 in
      if ext_ltb result_fun best_acquisition then
        restarts muscle n' (S rng) (Some result_x) (Fin result_fun)
      else restarts muscle n' (S rng) best_x best_acquisition
  end.

(** The outer loop, lines 149-174: [best_x.tolist()] raises
    [AttributeError] when no restart has replaced the initial [None]. *)
Fixpoint suggest_loop (keys : list string) (n_restarts : nat) (rng : nat)
  (next_x : list Q) : result (list Q) * nat :=
  match keys with
  | [] => (Ok next_x, rng)
  | muscle :: rest =>
      let '(best_x, rng') := restarts muscle n_restarts rng None PInf in
      match best_x with
      | None => (Err (AttributeError "tolist"), rng')
      | Some x => suggest_loop rest n_restarts rng' (next_x ++ x)
      end
  end.

(** [BayesianOptimizer.suggest_next_point(n_restarts)] for the muscles
    [muscle_keys] of the mode. *)
Definition suggest_next_point (muscle_keys : list string) (n_restarts : nat) (rng : nat)
  : result (list Q) * nat :=
  suggest_loop muscle_keys n_restarts rng [].

End SuggestNextPoint.

End Suggest.
Lemma Qltb_spec (x y : Q) : Qltb x y = true <-> x < y.
Proof.
  unfold Qltb. rewrite negb_true_iff. split.
  - intro H. apply Qnot_le_lt. intro H'. apply Qle_bool_iff in H'. congruence.
  - intro H. destruct (Qle_bool y x) eqn:E; [|reflexivity].
    apply Qle_bool_iff in E. exfalso. apply (Qlt_not_le x y H E).
Qed.

Lemma Qltb_false (x y : Q) : Qltb x y = false <-> y <= x.
Proof.
  unfold Qltb. rewrite negb_false_iff. apply Qle_bool_iff.
Qed.

(** ** Proofs about the stimulation controller *)
Module StimWorkerProofs.

Import StimWorker.
Local Open Scope Q_scope.
Local Open Scope string_scope.

Lemma Qle_bool_true_iff (x y : Q) : Qle_bool x y = true <-> x <= y.
Proof. apply Qle_bool_iff. Qed.

Lemma set_angle_angle (st : HandCycling2) (a : Q) : angle (set_angle st a) = a.
Proof. reflexivity. Qed.

(** C1: the window membership test follows the non-wrapping arc when
    onset < offset, the complement of [offset, onset] when onset > offset,
    and raises a RuntimeError when onset = offset. *)
Theorem should_stimulation_be_active_spec (st : HandCycling2) (onset offset : Q) :
  (onset < offset ->
     exists b, should_stimulation_be_active st onset offset = Ok b /\
               (b = true <-> onset <= angle st /\ angle st <= offset)) /\
  (offset < onset ->
     exists b, should_stimulation_be_active st onset offset = Ok b /\
               (b = true <-> ~ (offset <= angle st /\ angle st <= onset))) /\
  (onset == offset ->
     should_stimulation_be_active st onset offset =
       Err (RuntimeError "The onset and offset have the same value.")).
Proof.
  unfold should_stimulation_be_active. split; [|split].
  - intro H. apply Qltb_spec in H. rewrite H. eexists. split; [reflexivity|].
    rewrite andb_true_iff, !Qle_bool_true_iff. tauto.
  - intro H. destruct (Qltb onset offset) eqn:E1.
    + apply Qltb_spec in E1. exfalso. apply (Qlt_irrefl onset).
      apply Qlt_trans with offset; assumption.
    + apply Qltb_spec in H. rewrite H. eexists. split; [reflexivity|].
      rewrite negb_true_iff. split.
      * intros Hf [H1 H2]. apply Qle_bool_true_iff in H1, H2.
        rewrite H1, H2 in Hf. discriminate.
      * intro Hn. destruct (Qle_bool (angle st) onset) eqn:A1;
          destruct (Qle_bool offset (angle st)) eqn:A2; try reflexivity.
        exfalso. apply Hn. split; apply Qle_bool_true_iff; assumption.
  - intro H. destruct (Qltb onset offset) eqn:E1.
    + apply Qltb_spec in E1. rewrite H in E1. exfalso. exact (Qlt_irrefl _ E1).
    + destruct (Qltb offset onset) eqn:E2; [|reflexivity].
      apply Qltb_spec in E2. rewrite H in E2. exfalso. exact (Qlt_irrefl _ E2).
Qed.

Lemma should_stimulation_be_active_spec_witness :
  should_stimulation_be_active (set_angle init_HandCycling2 45) 30 90 = Ok true.
Proof.
  destruct (proj1 (should_stimulation_be_active_spec
                     (set_angle init_HandCycling2 45) 30 90) ltac:(reflexivity))
    as [b [Hb Hiff]].
  rewrite Hb. f_equal. apply Hiff. split; vm_compute; discriminate.
Defined.

(** C3 (counterexample): the default biceps_r window [220, 10] wraps, and
    its boundary angle 220 is classified as inactive. *)
Lemma window_boundary_wrapping_inactive :
  should_stimulation_be_active (set_angle init_HandCycling2 220) 220 10 = Ok false.
Proof. reflexivity. Qed.

(** C3 (amended): for a valid window, the boundary angles onset and offset
    are both inside the active arc when onset < offset, and both outside it
    when onset > offset. *)
Theorem window_boundaries (st : HandCycling2) (onset offset : Q) :
  (onset < offset ->
     should_stimulation_be_active (set_angle st onset) onset offset = Ok true /\
     should_stimulation_be_active (set_angle st offset) onset offset = Ok true) /\
  (offset < onset ->
     should_stimulation_be_active (set_angle st onset) onset offset = Ok false /\
     should_stimulation_be_active (set_angle st offset) onset offset = Ok false).
Proof.
  unfold should_stimulation_be_active; rewrite !set_angle_angle. split.
  - intro H. pose proof H as Hle. apply Qlt_le_weak in Hle.
    apply Qltb_spec in H. rewrite H.
    assert (Hr : forall q, Qle_bool q q = true)
      by (intro q; apply Qle_bool_true_iff, Qle_refl).
    apply Qle_bool_true_iff in Hle. rewrite Hle, !Hr. split; reflexivity.
  - intro H. pose proof H as Hle. apply Qlt_le_weak in Hle.
    destruct (Qltb onset offset) eqn:E1.
    + apply Qltb_spec in E1. exfalso. apply (Qlt_irrefl onset).
      apply Qlt_trans with offset; assumption.
    + apply Qltb_spec in H. rewrite H.
      assert (Hr : forall q, Qle_bool q q = true)
        by (intro q; apply Qle_bool_true_iff, Qle_refl).
      apply Qle_bool_true_iff in Hle. rewrite Hle, !Hr. split; reflexivity.
Qed.

Lemma window_boundaries_witness :
  should_stimulation_be_active (set_angle init_HandCycling2 10) 220 10 = Ok false /\
  should_stimulation_be_active (set_angle init_HandCycling2 30) 30 90 = Ok true.
Proof.
  split.
  - exact (proj2 (proj2 (window_boundaries init_HandCycling2 220 10) ltac:(reflexivity))).
  - exact (proj1 (proj1 (window_boundaries init_HandCycling2 30 90) ltac:(reflexivity))).
Defined.


Lemma dict_get_err {V} (d : dict V) (k : string) (e : py_error) :
  dict_get d k = Err e -> e = KeyError k.
Proof.
  induction d as [|[k' v] d IH]; simpl.
  - congruence.
  - destruct (String.eqb k k'); [discriminate | exact IH].
Qed.







(** C2: [apply_parameters] has the single parameter [params]: the call of
    [_make_an_interation] with the extra flag raises a TypeError before
    anything is updated, and the body itself raises an AttributeError on
    [pulse_width_biceps_r] (StimParameters has no pulse-width attribute)
    before updating any window or intensity. *)
Theorem apply_parameters_signature (params : StimParameters) (flag : bool)
  (st : HandCycling2) :
  make_an_interation_apply params flag st =
    (Err (TypeError "apply_parameters() takes 2 positional arguments"), st) /\
  apply_parameters params st = (Err (AttributeError "pulse_width_biceps_r"), st).
Proof. split; reflexivity. Qed.

End StimWorkerProofs.

(** ** Proofs about the optimiser's bookkeeping *)
Module OptimizerProofs.

Import Optimizer.
Local Open Scope Q_scope.

(** The running best cost: replaced only by a strictly lower cost. *)
Definition best_step (b : extQ) (y : Q) : extQ := if ext_ltb y b then Fin y else b.

(** The costs of muscle number [i] over a list of evaluations. *)
Definition obs_of (i : nat) (evs : list (list Q * list Q)) : list Q :=
  map (fun e => nth i (snd e) 0) evs.

(** The habituation ramp of the spec: trial [k] of [n] uses
    [min + k * (max - min) / (n - 1)]. *)
Definition ramp (b : Bounds) (n k : nat) : Q :=
  fst b.(pulse_intensity) + inject_Z (Z.of_nat k) *
    ((snd b.(pulse_intensity) - fst b.(pulse_intensity)) / inject_Z (Z.of_nat n - 1)).

Section Bookkeeping.

Variable muscle_keys : list string.
Variable PARAMS_BOUNDS : string -> Bounds.
Variable uniform : nat -> Q -> Q -> Q.
Variable iteration_func : nat -> list Q -> result (list Q).
Variable gp_model : Type.
Variable gp_fit : list (list Q) -> list Q -> result gp_model.
Variable suggest_next_point : BO gp_model -> result (list Q) * nat.

Local Notation BO := (BO gp_model).
Local Notation M := (M gp_model).

Lemma bind_inv {A B} (m : M A) (k : A -> M B) (st st'' : BO) (r : result B) :
  bind gp_model m k st = (r, st'') ->
  (exists a st', m st = (Ok a, st') /\ k a st' = (r, st'')) \/
  (exists e, m st = (Err e, st'') /\ r = Err e).
Proof.
  unfold bind. destruct (m st) as [[a|e] st'] eqn:E; intro H.
  - left. exists a, st'. split; [reflexivity | exact H].
  - right. exists e. injection H as <- <-. split; reflexivity.
Qed.

(** Actions that leave the observations, the best costs and the
    evaluation log untouched. *)
Definition same_obs (st st' : BO) : Prop :=
  input_observed gp_model st' = input_observed gp_model st /\
  output_observed gp_model st' = output_observed gp_model st /\
  best_y gp_model st' = best_y gp_model st /\
  evaluations gp_model st' = evaluations gp_model st.

Lemma same_obs_refl (st : BO) : same_obs st st.
Proof. repeat split. Qed.

Lemma same_obs_trans (st1 st2 st3 : BO) :
  same_obs st1 st2 -> same_obs st2 st3 -> same_obs st1 st3.
Proof. unfold same_obs. intros (?&?&?&?) (?&?&?&?). repeat split; congruence. Qed.

Lemma draw_uniform_same lo hi (st st' : BO) r :
  draw_uniform uniform gp_model lo hi st = (r, st') -> same_obs st st'.
Proof. unfold draw_uniform. intro H. injection H as _ H. subst. repeat split. Qed.

Lemma build_x_same i n ms : forall (st st' : BO) r,
  build_x PARAMS_BOUNDS uniform gp_model i n ms st = (r, st') -> same_obs st st'.
Proof.
  induction ms as [|m ms IH]; intros st st' r H; simpl in H.
  - injection H as _ <-. apply same_obs_refl.
  - apply bind_inv in H as [(incr & st1 & H1 & H)|(e & H1 & _)];
      unfold lift in H1; injection H1 as _ <-; [|apply same_obs_refl].
    apply bind_inv in H as [(on & st2 & H2 & H)|(e & H2 & _)];
      [|eapply draw_uniform_same; exact H2].
    apply draw_uniform_same in H2.
    apply bind_inv in H as [(off & st3 & H3 & H)|(e & H3 & _)];
      [|eapply same_obs_trans; [exact H2|]; eapply draw_uniform_same; exact H3].
    apply draw_uniform_same in H3.
    apply bind_inv in H as [(xs & st4 & H4 & H)|(e & H4 & _)].
    + apply IH in H4. unfold ret in H. injection H as _ <-.
      eapply same_obs_trans; [exact H2|]. eapply same_obs_trans; eassumption.
    + apply IH in H4. eapply same_obs_trans; [exact H2|].
      eapply same_obs_trans; eassumption.
Qed.


Lemma fit_muscle_same m (st st' : BO) r :
  fit_muscle gp_model gp_fit m st = (r, st') -> same_obs st st'.
Proof.
  unfold fit_muscle. destruct (gp_fit _ _); intro H; injection H as _ H; subst;
    repeat split.
Qed.

Lemma fit_all_same ms : forall (st st' : BO) r,
  fit_all gp_model gp_fit ms st = (r, st') -> same_obs st st'.
Proof.
  induction ms as [|m ms IH]; intros st st' r H; simpl in H.
  - injection H as _ <-. apply same_obs_refl.
  - apply bind_inv in H as [(u & st1 & H1 & H)|(e & H1 & _)].
    + apply fit_muscle_same in H1. apply IH in H. eapply same_obs_trans; eassumption.
    + eapply fit_muscle_same; exact H1.
Qed.

Lemma suggest_same (st st' : BO) r :
  suggest gp_model suggest_next_point st = (r, st') -> same_obs st st'.
Proof.
  unfold suggest. destruct (suggest_next_point st). intro H.
  injection H as _ H. subst. repeat split.
Qed.

Lemma call_iteration_func_ok x (st st' : BO) ys :
  call_iteration_func iteration_func gp_model x st = (Ok ys, st') ->
  input_observed gp_model st' = input_observed gp_model st /\
  output_observed gp_model st' = output_observed gp_model st /\
  best_y gp_model st' = best_y gp_model st /\
  evaluations gp_model st' = evaluations gp_model st ++ [(x, ys)].
Proof.
  unfold call_iteration_func. destruct (iteration_func _ _); intro H.
  - injection H as <- H. subst. repeat split.
  - discriminate.
Qed.

Lemma call_iteration_func_err x (st st' : BO) e :
  call_iteration_func iteration_func gp_model x st = (Err e, st') -> st' = st.
Proof.
  unfold call_iteration_func. destruct (iteration_func _ _); intro H.
  - discriminate.
  - injection H as _ <-. reflexivity.
Qed.

Lemma upd_eq {V} (f : string -> V) k v : upd f k v k = v.
Proof. unfold upd. rewrite String.eqb_refl. reflexivity. Qed.

Lemma upd_neq {V} (f : string -> V) k k' v : k' <> k -> upd f k v k' = f k'.
Proof. unfold upd. intro H. apply String.eqb_neq in H. rewrite H. reflexivity. Qed.

(** The effect of recording one observation [(x, y)] of muscle [m]. *)
Definition observed (m : string) (y : Q) (st st' : BO) : Prop :=
  (forall m', m' <> m ->
     input_observed gp_model st' m' = input_observed gp_model st m' /\
     output_observed gp_model st' m' = output_observed gp_model st m' /\
     best_y gp_model st' m' = best_y gp_model st m') /\
  List.length (input_observed gp_model st' m) = S (List.length (input_observed gp_model st m)) /\
  output_observed gp_model st' m = output_observed gp_model st m ++ [y] /\
  best_y gp_model st' m = best_step (best_y gp_model st m) y /\
  evaluations gp_model st' = evaluations gp_model st.

Definition ai_st m x (st : BO) : BO := snd (append_input gp_model m x st).
Definition ao_st m y (st : BO) : BO := snd (append_output gp_model m y st).
Definition ub_st m x y (st : BO) : BO := snd (update_best gp_model m x y st).

Lemma bind_ai {B} m x (k : unit -> M B) (st : BO) :
  bind gp_model (append_input gp_model m x) k st = k tt (ai_st m x st).
Proof. reflexivity. Qed.

Lemma bind_ao {B} m y (k : unit -> M B) (st : BO) :
  bind gp_model (append_output gp_model m y) k st = k tt (ao_st m y st).
Proof. reflexivity. Qed.

Lemma bind_ub {B} m x y (k : unit -> M B) (st : BO) :
  bind gp_model (update_best gp_model m x y) k st = k tt (ub_st m x y st).
Proof.
  unfold bind, ub_st, update_best. destruct (ext_ltb _ _); reflexivity.
Qed.

Lemma observed_steps m x y (st : BO) :
  observed m y st (ub_st m x y (ao_st m y (ai_st m x st))).
Proof.
  unfold ub_st, ao_st, ai_st, update_best, append_output, append_input, best_step.
  simpl. destruct (ext_ltb y (best_y gp_model st m)) eqn:E;
    unfold observed; simpl; rewrite ?upd_eq, ?length_app in *; simpl;
    (split; [intros m' Hm; rewrite !upd_neq by exact Hm; repeat split
            |repeat split; try reflexivity; unfold best_step; try (rewrite E; reflexivity); lia]).
Qed.

Lemma observed_same m y (st st1 st2 : BO) :
  observed m y st st1 -> same_obs st1 st2 -> observed m y st st2.
Proof.
  unfold observed, same_obs. intros (Hf & Hl & Ho & Hb & He) (Si & So & Sb & Se).
  rewrite Si, So, Sb, Se. repeat split; try assumption; apply Hf; assumption.
Qed.

Lemma nth_result_ok {A} (l : list A) i (a d : A) :
  nth_result l i = Ok a -> nth i l d = a.
Proof.
  unfold nth_result. destruct (nth_error l i) eqn:E; intro H; [|discriminate].
  injection H as ->. apply nth_error_nth. exact E.
Qed.

(** The effect of recording, for the muscles [ms] numbered from [i0], the
    costs [ys] of one evaluation. *)
Definition recorded (i0 : nat) (ms : list string) (ys : list Q) (st st' : BO) : Prop :=
  evaluations gp_model st' = evaluations gp_model st /\
  (forall j m, nth_error ms j = Some m ->
     List.length (input_observed gp_model st' m) = S (List.length (input_observed gp_model st m)) /\
     output_observed gp_model st' m = output_observed gp_model st m ++ [nth (i0 + j) ys 0] /\
     best_y gp_model st' m = best_step (best_y gp_model st m) (nth (i0 + j) ys 0)) /\
  (forall m, ~ In m ms ->
     input_observed gp_model st' m = input_observed gp_model st m /\
     output_observed gp_model st' m = output_observed gp_model st m /\
     best_y gp_model st' m = best_y gp_model st m).

Lemma recorded_nil i0 ys (st : BO) : recorded i0 [] ys st st.
Proof.
  split; [reflexivity|split].
  - intros [|k] m H; discriminate.
  - intros m _. repeat split.
Qed.

Lemma recorded_cons i0 m ms ys (st st1 st' : BO) :
  NoDup (m :: ms) -> observed m (nth i0 ys 0) st st1 ->
  recorded (S i0) ms ys st1 st' -> recorded i0 (m :: ms) ys st st'.
Proof.
  intros Hnd (Hf & Hl & Ho & Hb & He) (Re & Rin & Rout).
  inversion Hnd as [|? ? Hnin Hnd']; subst.
  split; [congruence|split].
  - intros [|k] m' Hj; simpl in Hj.
    + injection Hj as <-. destruct (Rout m Hnin) as (R1 & R2 & R3).
      rewrite R1, R2, R3, Ho, Hb, Nat.add_0_r. split; [|split]; congruence.
    + assert (Hne : m' <> m).
      { intro Heq. subst. apply Hnin. eapply nth_error_In. exact Hj. }
      destruct (Rin k m' Hj) as (R1 & R2 & R3). destruct (Hf m' Hne) as (F1 & F2 & F3).
      rewrite R1, R2, R3, F1, F2, F3. rewrite Nat.add_succ_r. simpl. auto.
  - intros m' Hm'. assert (Hne : m' <> m) by (intro; subst; apply Hm'; left; reflexivity).
    assert (Hm'' : ~ In m' ms) by (intro; apply Hm'; right; assumption).
    destruct (Rout m' Hm'') as (R1 & R2 & R3). destruct (Hf m' Hne) as (F1 & F2 & F3).
    rewrite R1, R2, R3, F1, F2, F3. auto.
Qed.

Lemma record_init_spec x ys ms : forall i0 (st st' : BO),
  NoDup ms -> record_init gp_model i0 ms x ys st = (Ok tt, st') ->
  recorded i0 ms ys st st'.
Proof.
  induction ms as [|m ms IH]; intros i0 st st' Hnd H; simpl in H.
  - injection H as <-. apply recorded_nil.
  - apply bind_inv in H as [(y & st1 & H1 & H)|(e & H1 & Hr)]; [|discriminate Hr].
    unfold lift in H1. injection H1 as Hy <-.
    apply bind_inv in H as [(xm & st1 & H1 & H)|(e & H1 & Hr)]; [|discriminate Hr].
    unfold lift in H1. injection H1 as _ <-.
    rewrite bind_ai, bind_ao, bind_ub in H.
    apply (recorded_cons i0 m ms ys st (ub_st m xm y (ao_st m y (ai_st m xm st))));
      [exact Hnd | |].
    + rewrite (nth_result_ok ys i0 y 0 Hy). apply observed_steps.
    + apply IH; [inversion Hnd; assumption | exact H].
Qed.



Lemma record_iteration_spec next_x ys ms : forall i0 (st st' : BO),
  NoDup ms -> record_iteration gp_model gp_fit i0 ms next_x ys st = (Ok tt, st') ->
  recorded i0 ms ys st st'.
Proof.
  induction ms as [|m ms IH]; intros i0 st st' Hnd H; simpl in H.
  - injection H as <-. apply recorded_nil.
  - destruct (negb _); [discriminate H|].
    rewrite bind_ai in H.
    apply bind_inv in H as [(y & st1 & H1 & H)|(e & H1 & Hr)]; [|discriminate Hr].
    unfold lift in H1. injection H1 as Hy <-.
    rewrite bind_ao, bind_ub in H.
    apply bind_inv in H as [(u & st2 & H2 & H)|(e & H2 & Hr)]; [|discriminate Hr].
    apply fit_muscle_same in H2.
    apply (recorded_cons i0 m ms ys st st2); [exact Hnd | |].
    + rewrite (nth_result_ok ys i0 y 0 Hy). eapply observed_same; [apply observed_steps | exact H2].
    + apply IH; [inversion Hnd; assumption | exact H].
Qed.

(** The bookkeeping invariant: muscle number [i] has one input row and
    one cost per evaluation, its costs in evaluation order, and its best
    cost is the running best of its costs. *)
Definition inv (st : BO) : Prop :=
  forall i m, nth_error muscle_keys i = Some m ->
    output_observed gp_model st m = obs_of i (evaluations gp_model st) /\
    List.length (input_observed gp_model st m) = List.length (evaluations gp_model st) /\
    best_y gp_model st m = fold_left best_step (output_observed gp_model st m) PInf.

Lemma inv_init rng0 : inv (init_BO gp_model rng0).
Proof. intros i m _. repeat split. Qed.

Lemma inv_same (st st' : BO) : inv st -> same_obs st st' -> inv st'.
Proof.
  unfold inv, same_obs. intros H (Si & So & Sb & Se) i m Hm.
  rewrite Si, So, Sb, Se. apply H, Hm.
Qed.

Lemma inv_step x ys (st st1 st2 : BO) :
  NoDup muscle_keys -> inv st ->
  call_iteration_func iteration_func gp_model x st = (Ok ys, st1) ->
  recorded 0 muscle_keys ys st1 st2 ->
  inv st2 /\ List.length (evaluations gp_model st2) = S (List.length (evaluations gp_model st)).
Proof.
  intros Hnd Hinv Hc (Re & Rin & _).
  apply call_iteration_func_ok in Hc as (Ci & Co & Cb & Ce).
  split.
  - intros i m Hm. destruct (Rin i m Hm) as (R1 & R2 & R3).
    destruct (Hinv i m Hm) as (I1 & I2 & I3).
    rewrite Re, Ce. rewrite R2, R1, R3, Co, Ci, Cb, I3, I1, I2.
    unfold obs_of. rewrite map_app, length_app, fold_left_app. simpl.
    repeat split; try reflexivity; lia.
  - rewrite Re, Ce, length_app. simpl. lia.
Qed.

Lemma init_loop_inv n k : forall i (st st' : BO),
  NoDup muscle_keys -> inv st ->
  init_loop muscle_keys PARAMS_BOUNDS uniform iteration_func gp_model k i n st = (Ok tt, st') ->
  inv st' /\ (List.length (evaluations gp_model st') = List.length (evaluations gp_model st) + k)%nat.
Proof.
  induction k as [|k IH]; intros i st st' Hnd Hinv H; simpl in H.
  - injection H as <-. split; [exact Hinv | lia].
  - apply bind_inv in H as [(xs & st1 & H1 & H)|(e & H1 & Hr)]; [|discriminate Hr].
    apply build_x_same in H1.
    apply bind_inv in H as [(ys & st2 & H2 & H)|(e & H2 & Hr)]; [|discriminate Hr].
    apply bind_inv in H as [(u & st3 & H3 & H)|(e & H3 & Hr)]; [|discriminate Hr].
    destruct u. apply record_init_spec in H3; [|exact Hnd].
    destruct (inv_step _ _ _ _ _ Hnd (inv_same _ _ Hinv H1) H2 H3) as [Hi3 Hl3].
    destruct (IH (S i) st3 st' Hnd Hi3 H) as [Hi Hl].
    destruct H1 as (_ & _ & _ & E1). rewrite E1 in Hl3. split; [exact Hi | lia].
Qed.

Lemma main_loop_inv k : forall (st st' : BO),
  NoDup muscle_keys -> inv st ->
  main_loop muscle_keys iteration_func gp_model gp_fit suggest_next_point k st = (Ok tt, st') ->
  inv st' /\ (List.length (evaluations gp_model st') = List.length (evaluations gp_model st) + k)%nat.
Proof.
  induction k as [|k IH]; intros st st' Hnd Hinv H; simpl in H.
  - injection H as <-. split; [exact Hinv | lia].
  - apply bind_inv in H as [(nx & st1 & H1 & H)|(e & H1 & Hr)]; [|discriminate Hr].
    apply suggest_same in H1.
    apply bind_inv in H as [(ys & st2 & H2 & H)|(e & H2 & Hr)]; [|discriminate Hr].
    apply bind_inv in H as [(u & st3 & H3 & H)|(e & H3 & Hr)]; [|discriminate Hr].
    destruct u. apply record_iteration_spec in H3; [|exact Hnd].
    destruct (inv_step _ _ _ _ _ Hnd (inv_same _ _ Hinv H1) H2 H3) as [Hi3 Hl3].
    destruct (IH st3 st' Hnd Hi3 H) as [Hi Hl].
    destruct H1 as (_ & _ & _ & E1). rewrite E1 in Hl3. split; [exact Hi | lia].
Qed.


Lemma fold_best_spec (l : list Q) : forall b,
  let r := fold_left best_step l b in
  (r = b \/ exists q, r = Fin q /\ In q l) /\
  (forall c, In c l -> exists q, r = Fin q /\ q <= c) /\
  (forall q0, b = Fin q0 -> exists q, r = Fin q /\ q <= q0).
Proof.
  induction l as [|y l IH]; intros b; simpl.
  - split; [left; reflexivity | split; [intros c [] |]].
    intros q0 ->. exists q0. split; [reflexivity | apply Qle_refl].
  - destruct (IH (best_step b y)) as (IH1 & IH2 & IH3).
    assert (Hy : exists q, best_step b y = Fin q /\ q <= y /\
                 (forall q0, b = Fin q0 -> q <= q0) /\ (best_step b y = b \/ q = y)).
    { unfold best_step. destruct b as [q0|]; simpl.
      - destruct (Qltb y q0) eqn:E.
        + exists y. apply Qltb_spec in E. split; [reflexivity|].
          split; [apply Qle_refl|]. split; [|right; reflexivity].
          intros q1 Hq1. injection Hq1 as <-. apply Qlt_le_weak, E.
        + exists q0. apply Qltb_false in E. split; [reflexivity|].
          split; [exact E|]. split; [|left; reflexivity].
          intros q1 Hq1. injection Hq1 as <-. apply Qle_refl.
      - exists y. split; [reflexivity|]. split; [apply Qle_refl|].
        split; [discriminate | right; reflexivity]. }
    destruct Hy as (q & Hq & Hqy & Hqb & Hor).
    destruct (IH3 q Hq) as (q' & Hr & Hq'q).
    split; [|split].
    + destruct IH1 as [IH1|(q1 & Hq1 & Hin)].
      * destruct Hor as [Hor|Hor]; [left; congruence|].
        right. exists q. split; [congruence | left; symmetry; exact Hor].
      * right. exists q1. split; [exact Hq1 | right; exact Hin].
    + intros c [<-|Hc].
      * exists q'. split; [exact Hr|]. apply Qle_trans with q; assumption.
      * apply IH2, Hc.
    + intros q0 Hb. exists q'. split; [exact Hr|].
      apply Qle_trans with q; [exact Hq'q | apply Hqb, Hb].
Qed.

(** C5: in every run of [optimize] from a fresh optimiser that returns,
    the iteration function was called nb_initialization_cycles +
    n_iterations times; each muscle has that many observations, its costs
    in evaluation order; its best cost is the running best (replaced only
    by a strictly lower cost), is returned in the result, and is the
    minimum of its recorded costs. *)
Theorem optimize_bookkeeping (n_iterations nb_init rng0 : nat) res (st' : BO) :
  NoDup muscle_keys ->
  optimize muscle_keys PARAMS_BOUNDS uniform iteration_func gp_model gp_fit
    suggest_next_point n_iterations nb_init (init_BO gp_model rng0) = (Ok res, st') ->
  List.length (evaluations gp_model st') = (nb_init + n_iterations)%nat /\
  forall i m, nth_error muscle_keys i = Some m ->
    output_observed gp_model st' m = obs_of i (evaluations gp_model st') /\
    List.length (input_observed gp_model st' m) = (nb_init + n_iterations)%nat /\
    nth_error res i = Some (m, (best_x gp_model st' m, best_y gp_model st' m)) /\
    best_y gp_model st' m = fold_left best_step (output_observed gp_model st' m) PInf /\
    (output_observed gp_model st' m = [] -> best_y gp_model st' m = PInf) /\
    (output_observed gp_model st' m <> [] ->
       exists q, best_y gp_model st' m = Fin q /\ In q (output_observed gp_model st' m) /\
                 forall c, In c (output_observed gp_model st' m) -> q <= c).
Proof.
  intros Hnd H. unfold optimize in H.
  apply bind_inv in H as [(u & st1 & H1 & H)|(e & H1 & Hr)]; [|discriminate Hr].
  unfold initialize in H1.
  apply bind_inv in H1 as [(u' & st0 & H0 & H1)|(e & H0 & Hr)]; [|discriminate Hr].
  destruct u'. destruct (init_loop_inv _ _ _ _ _ Hnd (inv_init rng0) H0) as [I0 L0].
  apply fit_all_same in H1.
  apply bind_inv in H as [(u2 & st2 & H2 & H)|(e & H2 & Hr)]; [|discriminate Hr].
  destruct u, u2.
  destruct (main_loop_inv _ _ _ Hnd (inv_same _ _ I0 H1) H2) as [I2 L2].
  unfold bind, get, ret in H. injection H as <- <-.
  destruct H1 as (_ & _ & _ & E1). rewrite E1, L0 in L2. simpl in L2.
  split; [exact L2|].
  intros i m Hm. destruct (I2 i m Hm) as (J1 & J2 & J3).
  split; [exact J1|]. split; [lia|]. split.
  { rewrite nth_error_map, Hm. reflexivity. }
  split; [exact J3|]. split.
  - intro He. rewrite J3, He. reflexivity.
  - intro Hne. destruct (fold_best_spec (output_observed gp_model st2 m) PInf)
      as (F1 & F2 & _).
    destruct (output_observed gp_model st2 m) as [|c l] eqn:Eo; [congruence|].
    destruct (F2 c (or_introl eq_refl)) as (q & Hq & _).
    destruct F1 as [F1|(q1 & Hq1 & Hin)]; [congruence|].
    exists q1. rewrite J3. split; [exact Hq1|]. split; [exact Hin|].
    intros c' Hc'. destruct (F2 c' Hc') as (q2 & Hq2 & Hle). congruence.
Qed.


Lemma intensity_increment_ok m n :
  (2 <= n)%nat ->
  intensity_increment PARAMS_BOUNDS m n =
  Ok ((snd (PARAMS_BOUNDS m).(pulse_intensity) - fst (PARAMS_BOUNDS m).(pulse_intensity))
      / inject_Z (Z.of_nat n - 1)).
Proof.
  intro Hn. unfold intensity_increment, py_div.
  destruct (pulse_intensity (PARAMS_BOUNDS m)) as [lo hi]. simpl.
  replace (Z.of_nat n - 1 =? 0)%Z with false by (symmetry; apply Z.eqb_neq; lia).
  reflexivity.
Qed.

Lemma build_x_ramp i n ms : forall (st st' : BO) xs,
  (2 <= n)%nat ->
  build_x PARAMS_BOUNDS uniform gp_model i n ms st = (Ok xs, st') ->
  forall j m, nth_error ms j = Some m ->
    nth_error (snd xs) (3 * j + 2) = Some (ramp (PARAMS_BOUNDS m) n i).
Proof.
  induction ms as [|m ms IH]; intros st st' xs Hn H j m' Hj; simpl in H.
  - destruct j; discriminate.
  - apply bind_inv in H as [(incr & st1 & H1 & H)|(e & H1 & Hr)]; [|discriminate Hr].
    unfold lift in H1. injection H1 as Hi <-.
    rewrite intensity_increment_ok in Hi by exact Hn. injection Hi as <-.
    apply bind_inv in H as [(on & st2 & H2 & H)|(e & H2 & Hr)]; [|discriminate Hr].
    apply bind_inv in H as [(off & st3 & H3 & H)|(e & H3 & Hr)]; [|discriminate Hr].
    apply bind_inv in H as [(xs' & st4 & H4 & H)|(e & H4 & Hr)]; [|discriminate Hr].
    unfold ret in H. injection H as <- _.
    destruct j as [|j]; simpl in Hj.
    + injection Hj as <-. reflexivity.
    + replace (3 * S j + 2)%nat with (S (S (S (3 * j + 2)))) by lia. simpl.
      eapply IH; eassumption.
Qed.

Lemma record_init_evals ms x ys : forall i0 (st st' : BO) r,
  record_init gp_model i0 ms x ys st = (r, st') ->
  evaluations gp_model st' = evaluations gp_model st.
Proof.
  induction ms as [|m ms IH]; intros i0 st st' r H; simpl in H.
  - injection H as _ <-. reflexivity.
  - apply bind_inv in H as [(y & st1 & H1 & H)|(e & H1 & _)];
      unfold lift in H1; injection H1 as _ <-; [|reflexivity].
    apply bind_inv in H as [(xm & st1 & H1 & H)|(e & H1 & _)];
      unfold lift in H1; injection H1 as _ <-; [|reflexivity].
    rewrite bind_ai, bind_ao, bind_ub in H. apply IH in H. rewrite H.
    apply observed_steps.
Qed.

Lemma init_loop_ramp n k : forall i (st st' : BO) r,
  (2 <= n)%nat ->
  init_loop muscle_keys PARAMS_BOUNDS uniform iteration_func gp_model k i n st = (r, st') ->
  exists new, evaluations gp_model st' = evaluations gp_model st ++ new /\
    (forall k' x ys j m, nth_error new k' = Some (x, ys) ->
       nth_error muscle_keys j = Some m ->
       nth_error x (3 * j + 2) = Some (ramp (PARAMS_BOUNDS m) n (i + k'))) /\
    (r = Ok tt -> List.length new = k).
Proof.
  induction k as [|k IH]; intros i st st' r Hn H; simpl in H.
  - injection H as <- <-. exists []. rewrite app_nil_r.
    split; [reflexivity|]. split; [intros [|k'] ? ? ? ? E; discriminate E | reflexivity].
  - apply bind_inv in H as [(xs & st1 & H1 & H)|(e & H1 & Hr)].
    2:{ apply build_x_same in H1. destruct H1 as (_ & _ & _ & E1).
        exists []. rewrite app_nil_r. split; [exact E1|].
        split; [intros [|k'] ? ? ? ? E; discriminate E | intro; subst; discriminate]. }
    pose proof (build_x_ramp _ _ _ _ _ _ Hn H1) as Hx.
    apply build_x_same in H1. destruct H1 as (_ & _ & _ & E1).
    apply bind_inv in H as [(ys & st2 & H2 & H)|(e & H2 & Hr)].
    2:{ apply call_iteration_func_err in H2. subst st'.
        exists []. rewrite app_nil_r. split; [exact E1|].
        split; [intros [|k'] ? ? ? ? E; discriminate E | intro; subst; discriminate]. }
    apply call_iteration_func_ok in H2 as (_ & _ & _ & E2).
    apply bind_inv in H as [(u & st3 & H3 & H)|(e & H3 & Hr)].
    2:{ apply record_init_evals in H3.
        exists [(snd xs, ys)]. split; [congruence|].
        split; [|intro; subst; discriminate].
        intros [|k'] x ys' j m E Hj; simpl in E; [|destruct k'; discriminate E].
        injection E as <- _. rewrite Nat.add_0_r. eapply Hx; exact Hj. }
    apply record_init_evals in H3.
    destruct (IH (S i) st3 st' r Hn H) as (new & E4 & Hnew & Hlen).
    exists ((snd xs, ys) :: new). split; [rewrite E4, H3, E2, E1, <- app_assoc; reflexivity|].
    split.
    + intros [|k'] x ys' j m E Hj; simpl in E.
      * injection E as <- _. rewrite Nat.add_0_r. eapply Hx; exact Hj.
      * replace (i + S k')%nat with (S i + k')%nat by lia. eapply Hnew; eassumption.
    + intro Hr. simpl. f_equal. apply Hlen, Hr.
Qed.

(** C4: when [initialize n] is run with [n >= 2] on an optimiser with no
    evaluation yet, the intensity of muscle number [i] at trial [k] (entry
    [3 i + 2] of the [k]-th vector sent to the iteration function) is
    exactly [min + k * (max - min) / (n - 1)], whatever the random onsets
    and offsets; a run that returns has evaluated exactly [n] trials; and
    for [n = 5] and intensity bounds [5, 15] the intensities of the trials
    are 5, 7.5, 10, 12.5 and 15. *)
Theorem initialize_intensity_ramp (n : nat) (st st' : BO) r :
  (2 <= n)%nat -> evaluations gp_model st = [] ->
  initialize muscle_keys PARAMS_BOUNDS uniform iteration_func gp_model gp_fit n st = (r, st') ->
  (forall k x ys i m, nth_error (evaluations gp_model st') k = Some (x, ys) ->
     nth_error muscle_keys i = Some m ->
     nth_error x (3 * i + 2) = Some (ramp (PARAMS_BOUNDS m) n k)) /\
  (r = Ok tt -> List.length (evaluations gp_model st') = n) /\
  (forall i m, n = 5%nat -> r = Ok tt -> nth_error muscle_keys i = Some m ->
     (PARAMS_BOUNDS m).(pulse_intensity) = (5, 15) ->
     Forall2 Qeq (map (fun e => nth (3 * i + 2) (fst e) 0) (evaluations gp_model st'))
       [5; 15 # 2; 10; 25 # 2; 15]).
Proof.
  intros Hn He H. unfold initialize in H.
  assert (Hev : forall st1 new, init_loop muscle_keys PARAMS_BOUNDS uniform iteration_func
                   gp_model n 0 n st = (Ok tt, st1) ->
                 evaluations gp_model st1 = evaluations gp_model st ++ new ->
                 evaluations gp_model st' = new).
  { intros st1 new H1 E1. apply bind_inv in H as [(u & st2 & H2 & H)|(e & H2 & _)];
      rewrite H2 in H1; [|discriminate H1]. injection H1 as _ <-.
    apply fit_all_same in H. destruct H as (_ & _ & _ & E). rewrite E, E1, He. reflexivity. }
  assert (Hmain : exists new, evaluations gp_model st' = new /\
    (forall k' x ys j m, nth_error new k' = Some (x, ys) ->
       nth_error muscle_keys j = Some m ->
       nth_error x (3 * j + 2) = Some (ramp (PARAMS_BOUNDS m) n k')) /\
    (r = Ok tt -> List.length new = n)).
  { apply bind_inv in H as [(u & st1 & H1 & H)|(e & H1 & Hr)].
    - destruct u. destruct (init_loop_ramp _ _ _ _ _ _ Hn H1) as (new & E1 & Hnew & Hlen).
      exists new. split; [eapply Hev; eassumption|]. split; [exact Hnew|].
      intros _. apply Hlen. reflexivity.
    - destruct (init_loop_ramp _ _ _ _ _ _ Hn H1) as (new & E1 & Hnew & _).
      exists new. rewrite E1, He. split; [reflexivity|]. split; [exact Hnew|].
      intro; subst; discriminate. }
  destruct Hmain as (new & E & Hnew & Hlen). rewrite E.
  split; [exact Hnew|]. split; [exact Hlen|].
  intros i m -> Hr Hm Hb. specialize (Hlen Hr).
  destruct new as [|[x0 y0] [|[x1 y1] [|[x2 y2] [|[x3 y3] [|[x4 y4] [|]]]]]];
    try discriminate Hlen.
  assert (R : forall k x ys, nth_error [(x0, y0); (x1, y1); (x2, y2); (x3, y3); (x4, y4)] k
                 = Some (x, ys) -> nth (3 * i + 2) x 0 = ramp (PARAMS_BOUNDS m) 5 k).
  { intros k x ys Ek. apply nth_error_nth. eapply Hnew; eassumption. }
  unfold ramp in R. rewrite Hb in R. simpl in R.
  simpl. repeat constructor;
    [ rewrite (R 0%nat _ _ eq_refl) | rewrite (R 1%nat _ _ eq_refl) | rewrite (R 2%nat _ _ eq_refl)
    | rewrite (R 3%nat _ _ eq_refl) | rewrite (R 4%nat _ _ eq_refl) ]; reflexivity.
Qed.

(** C9: with at least one muscle, [initialize 1] (and hence [optimize _ 1])
    raises [ZeroDivisionError] at the first intensity increment, leaving
    the optimiser, and its evaluation log, untouched; for [n >= 2] the
    increment is a number. *)
Theorem initialize_single_cycle_zero_division (st : BO) :
  muscle_keys <> [] ->
  initialize muscle_keys PARAMS_BOUNDS uniform iteration_func gp_model gp_fit 1 st
    = (Err ZeroDivisionError, st) /\
  (forall n_iterations,
     optimize muscle_keys PARAMS_BOUNDS uniform iteration_func gp_model gp_fit
       suggest_next_point n_iterations 1 st = (Err ZeroDivisionError, st)) /\
  (forall m n, (2 <= n)%nat -> exists q, intensity_increment PARAMS_BOUNDS m n = Ok q).
Proof.
  intro Hk.
  assert (H1 : initialize muscle_keys PARAMS_BOUNDS uniform iteration_func gp_model gp_fit 1 st
               = (Err ZeroDivisionError, st)).
  { destruct muscle_keys as [|m rest]; [congruence|].
    unfold initialize, init_loop, build_x, bind, lift, intensity_increment.
    destruct (pulse_intensity (PARAMS_BOUNDS m)). reflexivity. }
  split; [exact H1|]. split.
  - intro k. unfold optimize, bind at 1. rewrite H1. reflexivity.
  - intros m n Hn. eexists. apply intensity_increment_ok, Hn.
Qed.

End Bookkeeping.

(** A concrete optimiser: two muscles with the intensity bounds of
    constants.py, a deterministic draw, a quadratic cost per muscle and a
    fixed suggestion. *)
Definition w_keys : list string := ["biceps_r"%string; "triceps_r"%string].
Definition w_bounds (_ : string) : Bounds := mkBounds (-30, 30) (-30, 30) (5, 15).
Definition w_uniform (r : nat) (lo hi : Q) : Q :=
  lo + (hi - lo) * inject_Z (Z.of_nat (r mod 7)) / 7.
Definition w_iteration (_ : nat) (x : list Q) : result (list Q) :=
  Ok [nth 0 x 0 * nth 0 x 0 + nth 2 x 0; nth 3 x 0 * nth 3 x 0 + nth 5 x 0].
Definition w_fit (_ : list (list Q)) (_ : list Q) : result unit := Ok tt.
Definition w_suggest (st : BO unit) : result (list Q) * nat :=
  (Ok [1; 2; 6; -1; 0; 7], S (rng unit st)).

Definition w_init_run := initialize w_keys w_bounds w_uniform w_iteration unit w_fit 5
  (init_BO unit 0).
Definition w_opt_run := optimize w_keys w_bounds w_uniform w_iteration unit w_fit w_suggest
  2 3 (init_BO unit 0).
Definition w_opt_res : list (string * (list Q * extQ)) :=
  match fst w_opt_run with Ok r => r | Err _ => [] end.

Lemma initialize_intensity_ramp_witness :
  (2 <= 5)%nat /\ evaluations unit (init_BO unit 0) = [] /\
  initialize w_keys w_bounds w_uniform w_iteration unit w_fit 5 (init_BO unit 0)
    = (fst w_init_run, snd w_init_run) /\
  (forall k x ys i m, nth_error (evaluations unit (snd w_init_run)) k = Some (x, ys) ->
     nth_error w_keys i = Some m ->
     nth_error x (3 * i + 2) = Some (ramp (w_bounds m) 5 k)) /\
  (fst w_init_run = Ok tt -> List.length (evaluations unit (snd w_init_run)) = 5%nat) /\
  (forall i m, 5%nat = 5%nat -> fst w_init_run = Ok tt -> nth_error w_keys i = Some m ->
     (w_bounds m).(pulse_intensity) = (5, 15) ->
     Forall2 Qeq (map (fun e => nth (3 * i + 2) (fst e) 0) (evaluations unit (snd w_init_run)))
       [5; 15 # 2; 10; 25 # 2; 15]).
Proof.
  assert (Hr : initialize w_keys w_bounds w_uniform w_iteration unit w_fit 5 (init_BO unit 0)
    = (fst w_init_run, snd w_init_run)) by (vm_compute; reflexivity).
  split; [lia|]. split; [reflexivity|]. split; [exact Hr|].
  exact (initialize_intensity_ramp w_keys w_bounds w_uniform w_iteration unit w_fit 5
           (init_BO unit 0) (snd w_init_run) (fst w_init_run) ltac:(lia) eq_refl Hr).
Defined.

Lemma optimize_bookkeeping_witness :
  NoDup w_keys /\
  optimize w_keys w_bounds w_uniform w_iteration unit w_fit w_suggest 2 3 (init_BO unit 0)
    = (Ok w_opt_res, snd w_opt_run) /\
  List.length (evaluations unit (snd w_opt_run)) = (3 + 2)%nat /\
  forall i m, nth_error w_keys i = Some m ->
    output_observed unit (snd w_opt_run) m = obs_of i (evaluations unit (snd w_opt_run)) /\
    List.length (input_observed unit (snd w_opt_run) m) = (3 + 2)%nat /\
    nth_error w_opt_res i = Some (m, (best_x unit (snd w_opt_run) m, best_y unit (snd w_opt_run) m)) /\
    best_y unit (snd w_opt_run) m = fold_left best_step (output_observed unit (snd w_opt_run) m) PInf /\
    (output_observed unit (snd w_opt_run) m = [] -> best_y unit (snd w_opt_run) m = PInf) /\
    (output_observed unit (snd w_opt_run) m <> [] ->
       exists q, best_y unit (snd w_opt_run) m = Fin q /\ In q (output_observed unit (snd w_opt_run) m) /\
                 forall c, In c (output_observed unit (snd w_opt_run) m) -> q <= c).
Proof.
  assert (Hnd : NoDup w_keys).
  { constructor; [intros [H|[]]; discriminate H | constructor; [intros [] | constructor]]. }
  assert (Hr : optimize w_keys w_bounds w_uniform w_iteration unit w_fit w_suggest 2 3 (init_BO unit 0)
    = (Ok w_opt_res, snd w_opt_run)) by (vm_compute; reflexivity).
  split; [exact Hnd|]. split; [exact Hr|].
  exact (optimize_bookkeeping w_keys w_bounds w_uniform w_iteration unit w_fit w_suggest
           2 3 0 w_opt_res (snd w_opt_run) Hnd Hr).
Defined.

Lemma initialize_single_cycle_zero_division_witness :
  w_keys <> [] /\
  initialize w_keys w_bounds w_uniform w_iteration unit w_fit 1 (init_BO unit 0)
    = (Err ZeroDivisionError, init_BO unit 0) /\
  (forall n_iterations,
     optimize w_keys w_bounds w_uniform w_iteration unit w_fit w_suggest n_iterations 1
       (init_BO unit 0) = (Err ZeroDivisionError, init_BO unit 0)) /\
  (forall m n, (2 <= n)%nat -> exists q, intensity_increment w_bounds m n = Ok q).
Proof.
  assert (Hk : w_keys <> []) by (intro H; discriminate H).
  split; [exact Hk|].
  exact (initialize_single_cycle_zero_division w_keys w_bounds w_uniform w_iteration unit
           w_fit w_suggest (init_BO unit 0) Hk).
Defined.

End OptimizerProofs.

(** ** Proofs about the Gaussian process and the acquisition *)
Module GPProofs.

Import GP.
Local Open Scope R_scope.

Lemma eps_pos : 0 < eps.
Proof. unfold eps. apply Rinv_0_lt_compat, pow_lt. lra. Qed.

Lemma Rmax_eps_pos s : 0 < Rmax s eps.
Proof. apply Rlt_le_trans with eps; [apply eps_pos | apply Rmax_r]. Qed.

(** C8: [predict] returns [mean = K_star K_inv y] and
    [std = sqrt (max (diag var) 1e-10)] with
    [var = K(x, x) - K_star K_inv K_star^T]; every returned standard
    deviation is at least [sqrt 1e-10], which is positive. *)
Theorem predict_std_floor (gp : GaussianProcess) (test_data : matrix) :
  let K_star := rbf_kernel gp test_data gp.(input_training_data) in
  fst (predict gp test_data) = matvec (matmul K_star gp.(K_inv)) gp.(output_training_data) /\
  snd (predict gp test_data) =
    map (fun v => sqrt (Rmax v eps))
      (diag (msub (rbf_kernel gp test_data test_data)
                  (matmul (matmul K_star gp.(K_inv)) (transpose K_star)))) /\
  0 < sqrt eps /\
  (forall s, In s (snd (predict gp test_data)) -> sqrt eps <= s).
Proof.
  intro K_star. split; [reflexivity|]. split; [reflexivity|].
  split; [apply sqrt_lt_R0, eps_pos|].
  intros s Hs. unfold predict in Hs. simpl in Hs.
  apply in_map_iff in Hs as (v & <- & _).
  apply sqrt_le_1_alt, Rmax_r.
Qed.

Section Acquisition.

Variable norm_cdf : R -> R.
Hypothesis norm_cdf_mono : forall z1 z2, z1 <= z2 -> norm_cdf z1 <= norm_cdf z2.
Hypothesis norm_cdf_minus_infinity :
  forall e, 0 < e -> exists Z, forall z, z < Z -> Rabs (norm_cdf z) < e.

(** C7: the probability of improvement is
    [Phi ((best_y - mean - xi) / max (std, 1e-10))] at every query point;
    for a fixed [std] and [xi] it is non-decreasing in [best_y - mean];
    and it tends to 0 as [mean] tends to infinity. *)
Theorem pi_monotone_limit :
  (forall gp best_y xi x,
     probability_of_improvement norm_cdf gp best_y xi x =
     map (fun '(m, s) => norm_cdf ((best_y - m - xi) / Rmax s eps))
       (combine (fst (predict gp x)) (snd (predict gp x)))) /\
  (forall std xi b1 m1 b2 m2, b1 - m1 <= b2 - m2 ->
     pi_value norm_cdf b1 xi m1 std <= pi_value norm_cdf b2 xi m2 std) /\
  (forall best_y xi std e, 0 < e ->
     exists M, forall mean, M < mean -> Rabs (pi_value norm_cdf best_y xi mean std) < e).
Proof.
  split; [|split].
  - intros gp best_y xi x. unfold probability_of_improvement.
    destruct (predict gp x) as [mean std]. reflexivity.
  - intros std xi b1 m1 b2 m2 H. unfold pi_value. apply norm_cdf_mono.
    unfold Rdiv. apply Rmult_le_compat_r; [|lra].
    apply Rlt_le, Rinv_0_lt_compat, Rmax_eps_pos.
  - intros best_y xi std e He.
    destruct (norm_cdf_minus_infinity e He) as [Z HZ].
    pose proof (Rmax_eps_pos std) as Hd.
    exists (best_y - xi - Z * Rmax std eps). intros mean Hm.
    unfold pi_value. apply HZ.
    apply Rmult_lt_reg_r with (Rmax std eps); [exact Hd|].
    unfold Rdiv. rewrite Rmult_assoc, Rinv_l by lra. lra.
Qed.

End Acquisition.

(** The distribution function of a point mass at 0. *)
Definition step_cdf (z : R) : R := if Rlt_dec z 0 then 0 else 1.

Lemma pi_monotone_limit_witness :
  (forall z1 z2, z1 <= z2 -> step_cdf z1 <= step_cdf z2) /\
  (forall e, 0 < e -> exists Z, forall z, z < Z -> Rabs (step_cdf z) < e) /\
  (forall gp best_y xi x,
     probability_of_improvement step_cdf gp best_y xi x =
     map (fun '(m, s) => step_cdf ((best_y - m - xi) / Rmax s eps))
       (combine (fst (predict gp x)) (snd (predict gp x)))) /\
  (forall std xi b1 m1 b2 m2, b1 - m1 <= b2 - m2 ->
     pi_value step_cdf b1 xi m1 std <= pi_value step_cdf b2 xi m2 std) /\
  (forall best_y xi std e, 0 < e ->
     exists M, forall mean, M < mean -> Rabs (pi_value step_cdf best_y xi mean std) < e).
Proof.
  assert (Hm : forall z1 z2, z1 <= z2 -> step_cdf z1 <= step_cdf z2).
  { intros z1 z2 H. unfold step_cdf.
    destruct (Rlt_dec z1 0), (Rlt_dec z2 0); lra. }
  assert (Hl : forall e, 0 < e -> exists Z, forall z, z < Z -> Rabs (step_cdf z) < e).
  { intros e He. exists 0. intros z Hz. unfold step_cdf.
    destruct (Rlt_dec z 0); [|lra]. rewrite Rabs_R0. exact He. }
  split; [exact Hm|]. split; [exact Hl|].
  exact (pi_monotone_limit step_cdf Hm Hl).
Defined.

End GPProofs.

(** ** The angle rotation and the cycle segmentation in binary64 *)
Module PedalFloatProofs.

Import PrimFloat SpecFloat FloatOps FloatAxioms PedalFloat.
Local Open Scope Z_scope.

Lemma digits_bounds p :
  2 ^ (Z.pos (digits2_pos p) - 1) <= Z.pos p < 2 ^ Z.pos (digits2_pos p).
Proof.
  induction p as [p IH|p IH|].
  - cbn [digits2_pos]. rewrite Pos2Z.inj_succ. set (d := Z.pos (digits2_pos p)) in *.
    replace (Z.succ d - 1) with d by lia.
    assert (E1 : 2 ^ d = 2 * 2 ^ (d - 1))
      by (rewrite <- Z.pow_succ_r by lia; f_equal; lia).
    assert (E2 : 2 ^ Z.succ d = 2 * 2 ^ d) by (apply Z.pow_succ_r; lia).
    rewrite (Pos2Z.inj_xI p). lia.
  - cbn [digits2_pos]. rewrite Pos2Z.inj_succ. set (d := Z.pos (digits2_pos p)) in *.
    replace (Z.succ d - 1) with d by lia.
    assert (E1 : 2 ^ d = 2 * 2 ^ (d - 1))
      by (rewrite <- Z.pow_succ_r by lia; f_equal; lia).
    assert (E2 : 2 ^ Z.succ d = 2 * 2 ^ d) by (apply Z.pow_succ_r; lia).
    rewrite (Pos2Z.inj_xO p). lia.
  - cbn. lia.
Qed.

Lemma digits_le_pow p k : Z.pos p < 2 ^ k -> Z.pos (digits2_pos p) <= k.
Proof.
  intro H. destruct (digits_bounds p) as [H1 _].
  destruct (Z_le_gt_dec (Z.pos (digits2_pos p)) k) as [|G]; [assumption|].
  assert (2 ^ k <= 2 ^ (Z.pos (digits2_pos p) - 1)) by (apply Z.pow_le_mono_r; lia). lia.
Qed.

Lemma iter_xO p d :
  Z.pos (Pos.iter xO p d) = Z.pos p * 2 ^ Z.pos d /\
  digits2_pos (Pos.iter xO p d) = (digits2_pos p + d)%positive.
Proof.
  induction d as [|d IH] using Pos.peano_ind.
  - cbn. split; [lia | symmetry; apply Pos.add_1_r].
  - rewrite Pos.iter_succ. destruct IH as [IH1 IH2]. split.
    + rewrite (Pos2Z.inj_xO (Pos.iter xO p d)), IH1, Pos2Z.inj_succ, Z.pow_succ_r by lia. lia.
    + cbn [digits2_pos]. rewrite IH2. lia.
Qed.

Definition fx (e : Z) : Z := Z.max (e - 53) (-1074).

Lemma fexp_fx e : fexp prec emax e = fx e.
Proof. reflexivity. Qed.

Lemma fx_mono a b : a <= b -> fx a <= fx b.
Proof. unfold fx. lia. Qed.

Lemma valid_fin s m e :
  SpecFloat.valid_binary prec emax (S754_finite s m e) = true ->
  fx (Z.pos (digits2_pos m) + e) = e /\ e <= 971.
Proof.
  cbv [SpecFloat.valid_binary bounded canonical_mantissa]. rewrite fexp_fx.
  intro H. apply andb_prop in H as [H1 H2]. apply Z.eqb_eq in H1. apply Z.leb_le in H2.
  split; [exact H1 | exact H2].
Qed.

Lemma valid_fin_intro s m e :
  fx (Z.pos (digits2_pos m) + e) = e -> e <= 971 ->
  SpecFloat.valid_binary prec emax (S754_finite s m e) = true.
Proof.
  intros H1 H2. cbv [SpecFloat.valid_binary bounded canonical_mantissa]. rewrite fexp_fx.
  apply andb_true_intro. split; [apply Z.eqb_eq, H1 | apply Z.leb_le, H2].
Qed.

(** The value [m * 2 ^ e] scaled by [2 ^ 1074], an integer for [e >= -1074]. *)
Definition V (m e : Z) : Z := m * 2 ^ (e + 1074).

Lemma V_shift m e k : 0 <= k -> -1074 <= e - k -> V (m * 2 ^ k) (e - k) = V m e.
Proof.
  intros Hk He. unfold V. rewrite <- Z.mul_assoc, <- Z.pow_add_r by lia. f_equal. f_equal. lia.
Qed.

Lemma V_bounds p e : -1074 <= e ->
  2 ^ (Z.pos (digits2_pos p) - 1 + e + 1074) <= V (Z.pos p) e <
  2 ^ (Z.pos (digits2_pos p) + e + 1074).
Proof.
  intro He. destruct (digits_bounds p) as [H1 H2]. unfold V.
  assert (P : 0 < 2 ^ (e + 1074)) by (apply Z.pow_pos_nonneg; lia).
  replace (Z.pos (digits2_pos p) - 1 + e + 1074) with ((Z.pos (digits2_pos p) - 1) + (e + 1074)) by lia.
  replace (Z.pos (digits2_pos p) + e + 1074) with (Z.pos (digits2_pos p) + (e + 1074)) by lia.
  rewrite (Z.pow_add_r 2 (Z.pos (digits2_pos p) - 1)) by lia.
  rewrite (Z.pow_add_r 2 (Z.pos (digits2_pos p))) by lia. split.
  - apply Z.mul_le_mono_nonneg_r; [lia | exact H1].
  - apply Z.mul_lt_mono_pos_r; [exact P | exact H2].
Qed.

Lemma V_digits_le p e q f : -1074 <= e -> -1074 <= f ->
  V (Z.pos p) e <= V (Z.pos q) f ->
  Z.pos (digits2_pos p) + e <= Z.pos (digits2_pos q) + f.
Proof.
  intros He Hf H. destruct (V_bounds p e He) as [A _]. destruct (V_bounds q f Hf) as [_ B].
  assert (C : 2 ^ (Z.pos (digits2_pos p) - 1 + e + 1074) < 2 ^ (Z.pos (digits2_pos q) + f + 1074)) by lia.
  apply Z.pow_lt_mono_r_iff in C; lia.
Qed.

Lemma valid_facts s m e :
  SpecFloat.valid_binary prec emax (S754_finite s m e) = true ->
  -1074 <= e /\ e <= 971 /\ Z.pos m < 2 ^ 53 /\
  (-1074 < e -> 2 ^ 52 <= Z.pos m).
Proof.
  intro H. apply valid_fin in H as [H1 H2]. unfold fx in H1.
  destruct (digits_bounds m) as [B1 B2].
  split; [lia|]. split; [lia|]. split.
  - assert (2 ^ Z.pos (digits2_pos m) <= 2 ^ 53) by (apply Z.pow_le_mono_r; lia). lia.
  - intro He. assert (Z.pos (digits2_pos m) = 53) by lia.
    rewrite H in B1. exact B1.
Qed.

(** Ordering of two positive finite floats by their values. *)
Lemma ltb_fin_pos ma ea mb eb :
  SpecFloat.valid_binary prec emax (S754_finite false ma ea) = true ->
  SpecFloat.valid_binary prec emax (S754_finite false mb eb) = true ->
  V (Z.pos ma) ea <= V (Z.pos mb) eb ->
  SFltb (S754_finite false mb eb) (S754_finite false ma ea) = false.
Proof.
  intros Ha Hb H. unfold SFltb, SFcompare.
  destruct (valid_facts _ _ _ Ha) as (Ha1 & Ha2 & Ha3 & Ha4).
  destruct (valid_facts _ _ _ Hb) as (Hb1 & Hb2 & Hb3 & Hb4).
  destruct (Z.compare eb ea) eqn:C; [| |reflexivity].
  - apply Z.compare_eq_iff in C. subst eb.
    change (Pos.compare_cont Eq mb ma) with (Pos.compare mb ma).
    destruct (Pos.compare mb ma) eqn:D; try reflexivity.
    apply Pos.compare_lt_iff in D. unfold V in H.
    assert (P : 0 < 2 ^ (ea + 1074)) by (apply Z.pow_pos_nonneg; lia).
    apply (Z.mul_le_mono_pos_r _ _ _ P) in H.
    assert (Z.pos mb < Z.pos ma) by exact D. lia.
  - assert (C' : eb < ea) by exact C. exfalso. specialize (Ha4 ltac:(lia)).
    unfold V in H.
    assert (E : 2 ^ (ea + 1074) = 2 ^ (ea - eb - 1) * 2 * 2 ^ (eb + 1074)).
    { replace (ea + 1074) with ((ea - eb - 1) + 1 + (eb + 1074)) at 1 by lia.
      rewrite !Z.pow_add_r by lia. rewrite Z.pow_1_r. ring. }
    assert (0 < 2 ^ (eb + 1074)) by (apply Z.pow_pos_nonneg; lia).
    assert (0 < 2 ^ (ea - eb - 1)) by (apply Z.pow_pos_nonneg; lia).
    rewrite E in H.
    set (P := 2 ^ (eb + 1074)) in *. set (A := 2 ^ (ea - eb - 1)) in *.
    assert (X1 : 2 * P <= A * 2 * P) by nia.
    assert (X2 : Z.pos ma * (2 * P) <= Z.pos ma * (A * 2 * P))
      by (apply Z.mul_le_mono_nonneg_l; lia).
    assert (X3 : Z.pos mb * P < 2 ^ 53 * P) by (apply Z.mul_lt_mono_pos_r; lia).
    assert (X4 : 2 ^ 52 * (2 * P) <= Z.pos ma * (2 * P))
      by (apply Z.mul_le_mono_nonneg_r; lia).
    lia.
Qed.

Lemma iter_pos_nat {A} (f : A -> A) p x :
  iter_pos f p x = Nat.iter (Pos.to_nat p) f x.
Proof.
  revert x. induction p as [p IH|p IH|]; intro x; cbn [iter_pos].
  - rewrite Pos2Nat.inj_xI, !IH. cbn [Nat.iter].
    rewrite <- Nat.iter_succ_r, <- Nat.iter_add. f_equal. lia.
  - rewrite Pos2Nat.inj_xO, !IH. rewrite <- Nat.iter_add. f_equal. lia.
  - reflexivity.
Qed.

Lemma shr_iter_inv p k : 0 <= p ->
  let r := Nat.iter k shr_1 (Build_shr_record p false false) in
  0 <= shr_m r /\
  shr_m r * 2 ^ Z.of_nat k <= p < (shr_m r + 1) * 2 ^ Z.of_nat k /\
  ((shr_r r || shr_s r)%bool = false <-> shr_m r * 2 ^ Z.of_nat k = p).
Proof.
  intros Hp. induction k as [|k IH]; cbn zeta in *.
  - cbn. split; [lia|]. split; [lia|]. split; [lia | reflexivity].
  - rewrite Nat.iter_succ. destruct (Nat.iter k shr_1 (Build_shr_record p false false)) as [m r s].
    cbn [shr_m shr_r shr_s] in IH. destruct IH as (I1 & I2 & I3).
    rewrite Nat2Z.inj_succ, Z.pow_succ_r by lia.
    set (K := 2 ^ Z.of_nat k) in *.
    assert (KP : 0 < K) by (apply Z.pow_pos_nonneg; lia).
    destruct m as [|q|q]; [| |lia]; [|destruct q as [q|q|]];
      cbn [shr_1 shr_m shr_r shr_s]; rewrite ?(Pos2Z.inj_xI q), ?(Pos2Z.inj_xO q) in *;
      destruct (r || s)%bool; cbn [orb];
      (split; [lia|]; split; [nia|]);
      (split; intro E; [try discriminate; try reflexivity | ]);
      first [ reflexivity | discriminate | exfalso; nia | idtac ].
    all: try (destruct I3 as [I3 _]; specialize (I3 eq_refl); nia).
    all: try (destruct I3 as [_ I3]; specialize (I3 ltac:(nia)); discriminate).
Qed.

Lemma rne_bound m l :
  m <= round_nearest_even m l <= m + 1 /\
  (l = loc_Exact -> round_nearest_even m l = m).
Proof.
  destruct l as [|c]; [|destruct c]; cbn; try destruct (Z.even m); split; try lia;
    intro H; discriminate.
Qed.

Lemma loc_exact_iff r :
  loc_of_shr_record r = loc_Exact <-> (shr_r r || shr_s r)%bool = false.
Proof. destruct r as [m [] []]; cbn; split; congruence. Qed.

Lemma round_aux_exact s m e :
  fx (Z.pos (digits2_pos m) + e) = e -> e <= 971 ->
  binary_round_aux prec emax s (Z.pos m) e loc_Exact = S754_finite s m e.
Proof.
  intros H1 H2. unfold binary_round_aux, shr_fexp. cbn [Zdigits2 shr_record_of_loc].
  rewrite fexp_fx, H1, Z.sub_diag. cbn [shr shr_m loc_of_shr_record round_nearest_even].
  cbn [Zdigits2 shr_record_of_loc]. rewrite fexp_fx, H1, Z.sub_diag. cbn [shr shr_m].
  replace (emax - prec) with 971 by reflexivity.
  apply Z.leb_le in H2. rewrite H2. reflexivity.
Qed.


(** Rounding a value that already fits in the format is exact. *)
Lemma round_exact s p e : -1074 <= e -> e <= 971 ->
  fx (Z.pos (digits2_pos p) + e) <= e ->
  exists m' e', binary_round prec emax s p e = S754_finite s m' e' /\
    SpecFloat.valid_binary prec emax (S754_finite s m' e') = true /\
    -1074 <= e' /\ V (Z.pos m') e' = V (Z.pos p) e.
Proof.
  intros He1 He2 Hf. unfold binary_round, shl_align. rewrite fexp_fx.
  set (f := fx (Z.pos (digits2_pos p) + e)) in *.
  assert (Ff : -1074 <= f) by (unfold f, fx; lia).
  destruct (f - e) as [|d|d] eqn:Hd.
  - assert (f = e) by lia. exists p, e.
    rewrite round_aux_exact by (unfold f in *; lia).
    split; [reflexivity|]. split; [apply valid_fin_intro; unfold f in *; lia|]. split; lia.
  - lia.
  - destruct (iter_xO p d) as [D1 D2].
    assert (Fd : fx (Z.pos (digits2_pos (Pos.iter xO p d)) + f) = f).
    { rewrite D2. unfold f in *. rewrite Pos2Z.inj_add. f_equal. lia. }
    exists (Pos.iter xO p d), f.
    rewrite round_aux_exact by (exact Fd || lia).
    split; [reflexivity|]. split; [apply valid_fin_intro; [exact Fd | lia]|]. split; [lia|].
    rewrite D1. replace f with (e - Z.pos d) by lia. apply V_shift; lia.
Qed.

Lemma V_split m e k : 0 <= k -> -1074 <= e -> V m (e + k) = m * 2 ^ k * 2 ^ (e + 1074).
Proof.
  intros Hk He. unfold V. rewrite <- Z.mul_assoc, <- Z.pow_add_r by lia. f_equal. f_equal. lia.
Qed.

(** Rounding (to nearest) a positive value not above a positive float [F]
    gives zero or a positive float not above [F]. *)
Lemma round_le p e mF eF : -1074 <= e ->
  SpecFloat.valid_binary prec emax (S754_finite false mF eF) = true ->
  V (Z.pos p) e <= V (Z.pos mF) eF ->
  match binary_round prec emax false p e with
  | S754_zero _ => True
  | S754_finite false m' e' => -1074 <= e' /\ V (Z.pos m') e' <= V (Z.pos mF) eF
  | _ => False
  end.
Proof.
  intros He HF HV.
  pose proof (valid_fin _ _ _ HF) as [F1 F2].
  destruct (valid_facts _ _ _ HF) as (F3 & _ & _ & _).
  pose proof (V_digits_le _ _ _ _ He F3 HV) as Dle.
  unfold binary_round, shl_align. rewrite fexp_fx.
  set (f := fx (Z.pos (digits2_pos p) + e)) in *.
  assert (Ff : -1074 <= f <= eF).
  { split; [unfold f, fx; lia|]. rewrite <- F1. apply fx_mono. exact Dle. }
  destruct (f - e) as [|d|d] eqn:Hd.
  - rewrite round_aux_exact by (unfold f in *; lia). split; lia.
  - (* the value is shifted right by [d] bits and rounded *)
    unfold binary_round_aux, shr_fexp. cbn [Zdigits2 shr_record_of_loc].
    rewrite fexp_fx. fold f. rewrite Hd. cbn [shr]. rewrite iter_pos_nat.
    destruct (shr_iter_inv (Z.pos p) (Pos.to_nat d)) as (S1 & S2 & S3); [lia|].
    rewrite positive_nat_Z in S2, S3.
    set (r1 := Nat.iter (Pos.to_nat d) shr_1 _) in *.
    set (m1 := shr_m r1) in *.
    set (m2 := round_nearest_even m1 (loc_of_shr_record r1)).
    replace (e + Z.pos d) with f by lia.
    set (P := 2 ^ (e + 1074)) in *. set (D := 2 ^ Z.pos d) in *.
    assert (PP : 0 < P) by (apply Z.pow_pos_nonneg; lia).
    assert (DP : 0 < D) by (apply Z.pow_pos_nonneg; lia).
    set (N := Z.pos mF * 2 ^ (eF - f)).
    assert (EF : V (Z.pos mF) eF = N * D * P).
    { replace eF with (f + (eF - f)) at 1 by lia. rewrite V_split by lia.
      replace (f + 1074) with (Z.pos d + (e + 1074)) by lia.
      rewrite Z.pow_add_r by lia. unfold N, D, P. ring. }
    assert (Ef : forall m, V m f = m * D * P).
    { intro m. replace f with (e + Z.pos d) by lia. rewrite V_split by lia. reflexivity. }
    assert (Hp : Z.pos p <= N * D).
    { rewrite EF in HV. unfold V in HV. fold P in HV.
      apply (Z.mul_le_mono_pos_r _ _ _ PP). lia. }
    assert (M2 : 0 <= m2 /\ V m2 f <= V (Z.pos mF) eF).
    { rewrite Ef, EF. unfold m2. destruct (rne_bound m1 (loc_of_shr_record r1)) as [R1 R2].
      destruct (loc_of_shr_record r1) eqn:L.
      - rewrite (R2 eq_refl). apply loc_exact_iff, S3 in L.
        split; [lia|]. apply Z.mul_le_mono_pos_r; [exact PP|]. lia.
      - assert (NE : m1 * D <> Z.pos p).
        { intro E. apply S3 in E. apply loc_exact_iff in E. congruence. }
        assert (m1 * D < N * D) by lia.
        assert (m1 < N) by (apply (Z.mul_lt_mono_pos_r D); lia).
        split; [lia|].
        apply Z.mul_le_mono_pos_r; [exact PP|]. apply Z.mul_le_mono_pos_r; [exact DP|]. lia. }
    clearbody m2. destruct M2 as [M2a M2b].
    cbn [shr_record_of_loc]. rewrite fexp_fx.
    destruct (fx (Zdigits2 m2 + f) - f) as [|d2|d2] eqn:Hd2; cbn [shr shr_m].
    + destruct m2 as [|q|q]; [exact I| |lia].
      replace (emax - prec) with 971 by reflexivity.
      replace (f <=? 971) with true by (symmetry; apply Z.leb_le; lia). split; lia.
    + rewrite iter_pos_nat.
      destruct (shr_iter_inv m2 (Pos.to_nat d2)) as (T1 & T2 & _); [lia|].
      rewrite positive_nat_Z in T2.
      destruct (shr_m (Nat.iter (Pos.to_nat d2) shr_1 _)) as [|q|q]; [exact I| |lia].
      assert (Q2 : 0 < 2 ^ Z.pos d2) by (apply Z.pow_pos_nonneg; lia).
      destruct m2 as [|q2|q2]; [nia| |lia].
      cbn [Zdigits2] in Hd2.
      pose proof (V_digits_le _ _ _ _ (proj1 Ff) F3 M2b) as Dq.
      assert (fx (Z.pos (digits2_pos q2) + f) <= eF) by (rewrite <- F1; apply fx_mono; lia).
      replace (emax - prec) with 971 by reflexivity.
      replace (f + Z.pos d2 <=? 971) with true by (symmetry; apply Z.leb_le; lia).
      split; [lia|]. rewrite V_split by lia. unfold V in M2b |- *.
      assert (0 < 2 ^ (f + 1074)) by (apply Z.pow_pos_nonneg; lia).
      assert (Z.pos q * 2 ^ Z.pos d2 * 2 ^ (f + 1074) <= Z.pos q2 * 2 ^ (f + 1074))
        by (apply Z.mul_le_mono_pos_r; lia).
      lia.
    + destruct m2 as [|q|q]; [exact I| |lia].
      replace (emax - prec) with 971 by reflexivity.
      replace (f <=? 971) with true by (symmetry; apply Z.leb_le; lia). split; lia.
  - destruct (iter_xO p d) as [D1 D2].
    assert (Fd : fx (Z.pos (digits2_pos (Pos.iter xO p d)) + f) = f).
    { rewrite D2. unfold f in *. rewrite Pos2Z.inj_add. f_equal. lia. }
    rewrite round_aux_exact by (exact Fd || lia). split; [lia|].
    rewrite D1. replace f with (e - Z.pos d) by lia. rewrite V_shift by lia. exact HV.
Qed.

(** The remainder of two finite floats, the divisor positive, is a zero
    or a float of the sign of [x] whose magnitude is below [y]. *)
Lemma fmod_fin sx mx ex my ey :
  SpecFloat.valid_binary prec emax (S754_finite sx mx ex) = true ->
  SpecFloat.valid_binary prec emax (S754_finite false my ey) = true ->
  fmod_sf (S754_finite sx mx ex) (S754_finite false my ey) = S754_zero sx \/
  exists m e, fmod_sf (S754_finite sx mx ex) (S754_finite false my ey) = S754_finite sx m e /\
    SpecFloat.valid_binary prec emax (S754_finite sx m e) = true /\
    -1074 <= e /\ V (Z.pos m) e < V (Z.pos my) ey.
Proof.
  intros Hx Hy.
  destruct (valid_facts _ _ _ Hx) as (X1 & X2 & X3 & _).
  destruct (valid_facts _ _ _ Hy) as (Y1 & Y2 & Y3 & _).
  change (fmod_sf (S754_finite sx mx ex) (S754_finite false my ey)) with
    (binary_normalize prec emax
       (cond_Zopp sx ((Z.pos mx * 2 ^ (ex - Z.min ex ey)) mod (Z.pos my * 2 ^ (ey - Z.min ex ey))))
       (Z.min ex ey) sx).
  set (e := Z.min ex ey).
  assert (Ee : -1074 <= e <= 971) by (unfold e; lia).
  assert (YP : 0 < Z.pos my * 2 ^ (ey - e))
    by (assert (0 < 2 ^ (ey - e)) by (apply Z.pow_pos_nonneg; unfold e; lia); lia).
  pose proof (Z.mod_pos_bound (Z.pos mx * 2 ^ (ex - e)) _ YP) as [R0 R1].
  assert (R2 : (Z.pos mx * 2 ^ (ex - e)) mod (Z.pos my * 2 ^ (ey - e)) < 2 ^ 53).
  { destruct (Z.min_spec ex ey) as [[M1 M2]|[M1 M2]];
      (assert (E : e = Z.min ex ey) by reflexivity); clearbody e; rewrite M2 in E; subst e.
    - rewrite Z.sub_diag, Z.pow_0_r, Z.mul_1_r in *.
      pose proof (Z.mod_le (Z.pos mx) (Z.pos my * 2 ^ (ey - ex)) ltac:(lia) YP). lia.
    - rewrite Z.sub_diag, Z.pow_0_r, Z.mul_1_r in *. lia. }
  destruct ((Z.pos mx * 2 ^ (ex - e)) mod (Z.pos my * 2 ^ (ey - e))) as [|r|r] eqn:R; [| |lia].
  - left. destruct sx; reflexivity.
  - right.
    assert (Hd : fx (Z.pos (digits2_pos r) + e) <= e).
    { pose proof (digits_le_pow r 53 R2). unfold fx. lia. }
    assert (HV : V (Z.pos r) e < V (Z.pos my) ey).
    { replace (V (Z.pos my) ey) with (V (Z.pos my) (e + (ey - e))) by (f_equal; lia). rewrite V_split by (unfold e; lia).
      unfold V. apply Z.mul_lt_mono_pos_r; [apply Z.pow_pos_nonneg; lia | exact R1]. }
    destruct (round_exact sx r e (proj1 Ee) (proj2 Ee) Hd) as (m' & e' & E1 & E2 & E3 & E4).
    exists m', e'. split; [|split; [exact E2 | split; [exact E3 | lia]]].
    destruct sx; exact E1.
Qed.

Lemma shl_align_val m e ez : ez <= e ->
  Z.pos (fst (shl_align m e ez)) = Z.pos m * 2 ^ (e - ez).
Proof.
  intro H. unfold shl_align. destruct (ez - e) as [|d|d] eqn:Hd; cbn [fst].
  - replace (e - ez) with 0 by lia. lia.
  - lia.
  - rewrite (proj1 (iter_xO m d)). f_equal. f_equal. lia.
Qed.

(** Adding a positive float [y] to a negative float of smaller magnitude
    gives zero or a positive float not above [y]. *)
Lemma add_neg_pos mm em my ey :
  SpecFloat.valid_binary prec emax (S754_finite true mm em) = true ->
  SpecFloat.valid_binary prec emax (S754_finite false my ey) = true ->
  V (Z.pos mm) em < V (Z.pos my) ey ->
  match SFadd prec emax (S754_finite true mm em) (S754_finite false my ey) with
  | S754_zero _ => True
  | S754_finite false m e => V (Z.pos m) e <= V (Z.pos my) ey
  | _ => False
  end.
Proof.
  intros Hm Hy HV.
  destruct (valid_facts _ _ _ Hm) as (M1 & _ & _ & _).
  destruct (valid_facts _ _ _ Hy) as (Y1 & _ & _ & _).
  change (SFadd prec emax (S754_finite true mm em) (S754_finite false my ey)) with
    (binary_normalize prec emax
       (- Z.pos (fst (shl_align mm em (Z.min em ey))) + Z.pos (fst (shl_align my ey (Z.min em ey))))
       (Z.min em ey) false).
  rewrite !shl_align_val by lia.
  set (ez := Z.min em ey).
  assert (Ez : -1074 <= ez) by (unfold ez; lia).
  assert (Hsum : V (- (Z.pos mm * 2 ^ (em - ez)) + Z.pos my * 2 ^ (ey - ez)) ez =
                 V (Z.pos my) ey - V (Z.pos mm) em).
  { replace (V (Z.pos my) ey) with (V (Z.pos my) (ez + (ey - ez))) by (f_equal; lia).
    replace (V (Z.pos mm) em) with (V (Z.pos mm) (ez + (em - ez))) by (f_equal; lia).
    rewrite !V_split by (unfold ez; lia). unfold V. ring. }
  destruct (- (Z.pos mm * 2 ^ (em - ez)) + Z.pos my * 2 ^ (ey - ez)) as [|s|s] eqn:S.
  - exact I.
  - assert (HVs : V (Z.pos s) ez <= V (Z.pos my) ey).
    { assert (0 <= V (Z.pos mm) em) by (unfold V; apply Z.mul_nonneg_nonneg; [lia | apply Z.pow_nonneg; lia]).
      lia. }
    pose proof (round_le s ez my ey Ez Hy HVs) as RL.
    cbn [binary_normalize].
    destruct (binary_round prec emax false s ez) as [[]|[]| |[] m e]; try exact I; try contradiction.
    apply RL.
  - exfalso. unfold V in Hsum.
    assert (0 < 2 ^ (ez + 1074)) by (apply Z.pow_pos_nonneg; lia).
    assert (Z.neg s * 2 ^ (ez + 1074) < 0) by (apply Z.mul_neg_pos; lia).
    unfold V in HV. lia.
Qed.

Lemma Prim2SF_zero : Prim2SF 0%float = S754_zero false.
Proof. reflexivity. Qed.

Lemma result_in_range y my ey r :
  Prim2SF y = S754_finite false my ey ->
  match Prim2SF r with
  | S754_zero _ | S754_nan => True
  | S754_finite false m e => V (Z.pos m) e <= V (Z.pos my) ey
  | _ => False
  end ->
  (r <? 0)%float = false /\ (y <? r)%float = false.
Proof.
  intros Hy Hr. rewrite !ltb_spec, Prim2SF_zero, Hy.
  pose proof (Prim2SF_valid r) as Vr. pose proof (Prim2SF_valid y) as Vy. rewrite Hy in Vy.
  destruct (Prim2SF r) as [s|s| |s m e]; try contradiction.
  - destruct s; split; reflexivity.
  - split; reflexivity.
  - destruct s; [contradiction|]. split; [reflexivity|]. apply ltb_fin_pos; assumption.
Qed.

(** numpy's remainder by a positive finite float [y] never compares below
    zero nor above [y]: it lies in [[0, y]] or is NaN. *)
Lemma np_remainder_range x y my ey :
  Prim2SF y = S754_finite false my ey ->
  (np_remainder x y <? 0)%float = false /\ (y <? np_remainder x y)%float = false.
Proof.
  intros Hy. apply (result_in_range y my ey); [exact Hy|].
  pose proof (Prim2SF_valid y) as Vy. rewrite Hy in Vy.
  unfold np_remainder.
  replace (y =? 0)%float with false by (rewrite eqb_spec, Hy; reflexivity).
  replace (y <? 0)%float with false by (rewrite ltb_spec, Hy; reflexivity).
  cbv zeta. unfold fmod. rewrite Hy.
  pose proof (Prim2SF_valid x) as Vx.
  destruct (Prim2SF x) as [sx|sx| |sx mx ex] eqn:Hx.
  - change (fmod_sf (S754_zero sx) (S754_finite false my ey)) with (S754_zero sx).
    destruct sx; vm_compute; exact I.
  - change (fmod_sf (S754_infinity sx) (S754_finite false my ey)) with S754_nan.
    vm_compute; exact I.
  - change (fmod_sf S754_nan (S754_finite false my ey)) with S754_nan.
    vm_compute; exact I.
  - destruct (fmod_fin sx mx ex my ey Vx Vy) as [Z|(m & e & E & Ve & _ & HV)]; rewrite Z || rewrite E.
    + destruct sx; vm_compute; exact I.
    + rewrite eqb_spec, ltb_spec, !Prim2SF_SF2Prim by exact Ve. rewrite Prim2SF_zero.
      replace (SFeqb (S754_finite sx m e) (S754_zero false)) with false by (destruct sx; reflexivity).
      replace (SFltb (S754_finite sx m e) (S754_zero false)) with sx by (destruct sx; reflexivity).
      destruct sx; cbn [negb Bool.eqb].
      * rewrite add_spec, Prim2SF_SF2Prim by exact Ve. rewrite Hy. unfold SF64add.
        pose proof (add_neg_pos m e my ey Ve Vy HV) as A.
        destruct (SFadd prec emax (S754_finite true m e) (S754_finite false my ey))
          as [|[]| |[]]; exact A || contradiction || exact I.
      * rewrite Prim2SF_SF2Prim by exact Ve. lia.
Qed.

Lemma two_pi_finite :
  Prim2SF (2 * np_pi)%float = S754_finite false 7074237752028440 (-50).
Proof. vm_compute. reflexivity. Qed.

Local Open Scope float_scope.

Lemma rotated_angle_float_range l :
  Forall (fun a => (a <? 0) = false /\ (2 * np_pi <? a) = false) (rotated_angle l).
Proof.
  unfold rotated_angle. apply Forall_map, Forall_forall. intros a _.
  exact (np_remainder_range _ _ _ _ two_pi_finite).
Qed.

Lemma scan_cycles_float_range fd times angles left right total nb n : forall lb d,
  Forall (Forall (fun a => (a <? 0) = false /\ (2 * np_pi <? a) = false)) (cycle_angles d) ->
  Forall (Forall (fun a => (a <? 0) = false /\ (2 * np_pi <? a) = false))
    (cycle_angles (scan_cycles fd times angles left right total nb n lb d)).
Proof.
  induction n as [|p IH]; intros lb d H; simpl; [exact H|].
  destruct (_ <? nb)%nat; [|exact H].
  destruct (negb _); [destruct lb as [end_idx|]|]; apply IH; try exact H.
  simpl. constructor; [apply rotated_angle_float_range | exact H].
Qed.

Lemma cost_angle_guard_float_closed d :
  Forall (Forall (fun a => (a <? 0) = false /\ (2 * np_pi <? a) = false)) (cycle_angles d) ->
  (cycle_angles d = [] /\ cost_angle_guard d = Err ValueError) \/
  cost_angle_guard d = Ok (List.concat (cycle_angles d)).
Proof.
  intro H. unfold cost_angle_guard.
  destruct (cycle_angles d) as [|c l] eqn:E; [left; split; reflexivity|right].
  destruct (existsb _ _) eqn:Ex; [|reflexivity].
  exfalso. apply existsb_exists in Ex as (a & Ha & Hf).
  apply in_concat in Ha as (c' & Hc' & Ha).
  rewrite Forall_forall in H. specialize (H c' Hc'). rewrite Forall_forall in H.
  destruct (H a Ha) as [H1 H2]. rewrite H1, H2 in Hf. discriminate Hf.
Qed.

(** C10, in binary64: at the float just below [np.pi / 2] the rotated
    angle is [-2^-52 % (2 * np.pi)], which rounds to exactly [2 * np.pi]:
    outside [[0, 2 PI)], though not above [2 * np.pi], so the guard of the
    cost functions still accepts it. *)
Lemma rotated_angle_reaches_two_pi :
  rotated_angle [next_down (np_pi / 2)] = [2 * np_pi] /\
  (2 * np_pi <? 2 * np_pi) = false /\
  (2 * np_pi <? 0) = false.
Proof. split; [|split]; vm_compute; reflexivity. Qed.

End PedalFloatProofs.

(** ** Proofs about the angle rotation and the cycle segmentation *)
Module PedalProofs.

Import Pedal PrimFloat.
Local Open Scope R_scope.

Lemma py_mod_range x p : 0 < p -> 0 <= py_mod x p < p.
Proof.
  intro Hp. unfold py_mod, py_floordiv.
  destruct (base_Int_part (x / p)) as [H1 H2].
  set (f := IZR (Int_part (x / p))) in *.
  assert (Hx : x = p * (x / p)) by (field; lra).
  set (y := x / p) in *. rewrite Hx. split; nra.
Qed.

Lemma rotated_angle_range l : Forall (fun a => 0 <= a < 2 * PI) (rotated_angle l).
Proof.
  unfold rotated_angle. apply Forall_map, Forall_forall. intros a _.
  apply py_mod_range. pose proof PI_RGT_0. lra.
Qed.

Lemma scan_cycles_range times angles left right total nb n : forall lb d,
  Forall (Forall (fun a => 0 <= a < 2 * PI)) (cycle_angles d) ->
  Forall (Forall (fun a => 0 <= a < 2 * PI))
    (cycle_angles (scan_cycles times angles left right total nb n lb d)).
Proof.
  induction n as [|p IH]; intros lb d H; simpl; [exact H|].
  destruct (_ <? nb)%nat; [|exact H].
  destruct (negb _); [destruct lb as [end_idx|]|]; apply IH; try exact H.
  simpl. constructor; [apply rotated_angle_range | exact H].
Qed.

Lemma cost_angle_guard_closed d :
  Forall (Forall (fun a => 0 <= a <= 2 * PI)) (cycle_angles d) ->
  (cycle_angles d = [] /\ cost_angle_guard d = Err ValueError) \/
  cost_angle_guard d = Ok (List.concat (cycle_angles d)).
Proof.
  intro H. unfold cost_angle_guard.
  destruct (cycle_angles d) as [|c l] eqn:E; [left; split; reflexivity|right].
  destruct (existsb _ _) eqn:Ex; [|reflexivity].
  exfalso. apply existsb_exists in Ex as (a & Ha & Hf).
  apply in_concat in Ha as (c' & Hc' & Ha).
  rewrite Forall_forall in H. specialize (H c' Hc'). rewrite Forall_forall in H.
  specialize (H a Ha). unfold Rltb in Hf.
  destruct (Rlt_dec a 0); [lra|]. destruct (Rlt_dec (2 * PI) a); [lra|].
  discriminate Hf.
Qed.

(** C10: [rotated_angle] maps every angle [a] to [(a - PI/2) mod 2 PI],
    which in exact arithmetic lies in [[0, 2 PI)]; the cost functions'
    guard accepts the closed interval [[0, 2 PI]], so on the cycle data of
    [get_last_cycles_data] it never raises. In float64 ([PedalFloat]) the
    wrapped angle never compares below [0.] nor above [2*np.pi] (it may
    equal [2*np.pi]), so there too the guard never raises, whatever numpy's
    floor division: the check either fails on no cycle at all ([np.hstack]
    of an empty list) or returns the concatenated angles. *)
Theorem rotated_angle_guard_never_triggered :
  (forall l i a, nth_error l i = Some a ->
     nth_error (rotated_angle l) i = Some (py_mod (a - PI / 2) (2 * PI))) /\
  (forall l a, In a (rotated_angle l) -> 0 <= a < 2 * PI) /\
  (forall d, Forall (Forall (fun a => 0 <= a <= 2 * PI)) (cycle_angles d) ->
     forall msg, cost_angle_guard d <> Err (RuntimeError msg)) /\
  (forall times angles left right total nb,
     let d := get_last_cycles_data times angles left right total nb in
     (cycle_angles d = [] /\ cost_angle_guard d = Err ValueError) \/
     cost_angle_guard d = Ok (List.concat (cycle_angles d))) /\
  (forall l a, In a (PedalFloat.rotated_angle l) ->
     (a <? 0)%float = false /\ (2 * PedalFloat.np_pi <? a)%float = false) /\
  (forall floor_divide times angles left right total nb,
     let d := PedalFloat.get_last_cycles_data floor_divide times angles left right total nb in
     (PedalFloat.cycle_angles d = [] /\ PedalFloat.cost_angle_guard d = Err ValueError) \/
     PedalFloat.cost_angle_guard d = Ok (List.concat (PedalFloat.cycle_angles d))).
Proof.
  split; [|split; [|split; [|split; [|split]]]].
  - intros l i a H. unfold rotated_angle. rewrite nth_error_map, H. reflexivity.
  - intros l a Ha. pose proof (rotated_angle_range l) as Hr.
    rewrite Forall_forall in Hr. apply Hr, Ha.
  - intros d H msg. destruct (cost_angle_guard_closed d H) as [[_ E]|E]; rewrite E; discriminate.
  - intros times angles left right total nb d. apply cost_angle_guard_closed.
    pose proof (scan_cycles_range times angles left right total nb (List.length angles - 1)
                  None (mkCycleData [] [] [] [] []) (Forall_nil _)) as H.
    eapply Forall_impl; [|exact H]. intros c Hc.
    eapply Forall_impl; [|exact Hc]. intros a Ha. lra.
  - intros l a Ha. pose proof (PedalFloatProofs.rotated_angle_float_range l) as Hr.
    rewrite Forall_forall in Hr. apply Hr, Ha.
  - intros fd times angles left right total nb d.
    apply PedalFloatProofs.cost_angle_guard_float_closed.
    apply (PedalFloatProofs.scan_cycles_float_range fd times angles left right total nb
             (List.length angles - 1) None (PedalFloat.mkCycleData [] [] [] [] [])).
    apply Forall_nil.
Qed.

End PedalProofs.


(** ** Proofs about the angle helpers and the search bounds *)
Module ConstantsProofs.

Import StimWorker Constants Lqa.
Local Open Scope Q_scope.

Lemma py_mod_unique x r (k : Z) :
  0 <= r < 360 -> x == r + 360 * inject_Z k -> py_mod x 360 == r.
Proof.
  intros [H0 H1] Hx. unfold py_mod.
  assert (Hq : x / 360 == r / 360 + inject_Z k) by (rewrite Hx; field).
  assert (Hr0 : 0 <= r / 360) by (apply Qle_shift_div_l; lra).
  assert (Hr1 : r / 360 < 1) by (apply Qlt_shift_div_r; lra).
  pose proof (Qfloor_le (x / 360)) as F1. pose proof (Qlt_floor (x / 360)) as F2.
  rewrite inject_Z_plus in F2. change (inject_Z 1) with 1 in F2.
  set (f := Qfloor (x / 360)) in *.
  assert (Hf : f = k).
  { assert (A : (f < k + 1)%Z).
    { rewrite Zlt_Qlt, inject_Z_plus; change (inject_Z 1) with 1. lra. }
    assert (B : (k < f + 1)%Z).
    { rewrite Zlt_Qlt, inject_Z_plus; change (inject_Z 1) with 1. lra. }
    lia. }
  rewrite Hf, Hx. ring.
Qed.

Lemma py_mod_range_Q x : 0 <= py_mod x 360 < 360.
Proof.
  unfold py_mod. pose proof (Qfloor_le (x / 360)) as F1.
  pose proof (Qlt_floor (x / 360)) as F2.
  rewrite inject_Z_plus in F2. change (inject_Z 1) with 1 in F2.
  set (f := inject_Z (Qfloor (x / 360))) in *.
  assert (Hx : x == 360 * (x / 360)) by field. set (y := x / 360) in *.
  rewrite Hx. split; lra.
Qed.

Lemma py_mod_multiple x : x == py_mod x 360 + 360 * inject_Z (Qfloor (x / 360)).
Proof. unfold py_mod. ring. Qed.

Lemma py_mod_shift x y (k : Z) : x == y + 360 * inject_Z k -> py_mod x 360 == py_mod y 360.
Proof.
  intro H. apply (py_mod_unique x (py_mod y 360) (Qfloor (y / 360) + k)).
  - apply py_mod_range_Q.
  - rewrite H, inject_Z_plus. rewrite (py_mod_multiple y) at 1. ring.
Qed.

Lemma angular_distance_char a1 a2 d (k : Z) :
  -180 < d <= 180 -> a2 - a1 == d + 360 * inject_Z k ->
  angular_distance a1 a2 == d.
Proof.
  intros Hd Hk. unfold angular_distance.
  destruct (Qlt_le_dec d 0) as [Hn|Hp].
  - assert (E : py_mod (a2 - a1) 360 == d + 360).
    { apply (py_mod_unique _ _ (k - 1)); [lra|].
      rewrite Hk. unfold Z.sub. rewrite inject_Z_plus, inject_Z_opp. change (inject_Z 1) with 1. ring. }
    destruct (Qltb 180 (py_mod (a2 - a1) 360)) eqn:B.
    + rewrite E. ring.
    + apply Qltb_false in B. rewrite E in B. lra.
  - assert (E : py_mod (a2 - a1) 360 == d) by (apply (py_mod_unique _ _ k); lra).
    destruct (Qltb 180 (py_mod (a2 - a1) 360)) eqn:B.
    + apply Qltb_spec in B. rewrite E in B. lra.
    + exact E.
Qed.

Lemma angular_distance_range a1 a2 :
  -180 < angular_distance a1 a2 <= 180 /\
  exists k : Z, a2 - a1 == angular_distance a1 a2 + 360 * inject_Z k.
Proof.
  unfold angular_distance.
  pose proof (py_mod_range_Q (a2 - a1)) as R.
  pose proof (py_mod_multiple (a2 - a1)) as M.
  set (r := py_mod (a2 - a1) 360) in *.
  set (f := Qfloor ((a2 - a1) / 360)) in *.
  destruct (Qltb 180 r) eqn:B.
  - apply Qltb_spec in B. split; [lra|].
    exists (f + 1)%Z. rewrite M at 1. rewrite inject_Z_plus. change (inject_Z 1) with 1. ring.
  - apply Qltb_false in B. split; [lra|]. exists f. exact M.
Qed.

(** X1: [wrap_angle] maps every angle into [[0, 360)] and changes it by a
    whole number of turns. *)
Theorem wrap_angle_spec (a : Q) :
  0 <= wrap_angle a < 360 /\
  exists k : Z, a == wrap_angle a + 360 * inject_Z k.
Proof.
  unfold wrap_angle. split; [apply py_mod_range_Q|].
  exists (Qfloor (a / 360)). apply py_mod_multiple.
Qed.

(** X2: [angular_distance a1 a2] is the unique value in [(-180, 180]] that
    differs from [a2 - a1] by a whole number of turns; [smaller_than_angle]
    holds exactly when it is not negative. *)
Theorem angular_distance_spec (a1 a2 : Q) :
  -180 < angular_distance a1 a2 <= 180 /\
  (exists k : Z, a2 - a1 == angular_distance a1 a2 + 360 * inject_Z k) /\
  (forall (d : Q) (k : Z), -180 < d <= 180 -> a2 - a1 == d + 360 * inject_Z k ->
     angular_distance a1 a2 == d) /\
  (smaller_than_angle a1 a2 = true <-> 0 <= angular_distance a1 a2).
Proof.
  destruct (angular_distance_range a1 a2) as [R K].
  split; [exact R|]. split; [exact K|]. split.
  - intros d k Hd Hk. exact (angular_distance_char a1 a2 d k Hd Hk).
  - unfold smaller_than_angle. rewrite andb_true_iff, !Qle_bool_iff.
    split; [intros [H _]; exact H | intro H; split; [exact H | lra]].
Qed.

Lemma mean_angle_split a1 a2 :
  angular_distance a1 (mean_angle a1 a2) == angular_distance a1 a2 / 2 /\
  angular_distance (mean_angle a1 a2) a2 == angular_distance a1 a2 / 2.
Proof.
  destruct (angular_distance_range a1 a2) as [R [k K]].
  unfold mean_angle. set (d := angular_distance a1 a2) in *.
  pose proof (py_mod_multiple (a1 + d / 2)) as M.
  set (m := py_mod (a1 + d / 2) 360) in *.
  set (j := Qfloor ((a1 + d / 2) / 360)) in *.
  assert (H2 : d / 2 == d * (1 # 2)) by reflexivity.
  assert (Hd2 : -180 < d / 2 <= 180) by (rewrite H2; lra).
  split.
  - apply (angular_distance_char _ _ _ (- j)%Z Hd2).
    rewrite inject_Z_opp. rewrite H2 in *. lra.
  - apply (angular_distance_char _ _ _ (k + j)%Z Hd2).
    rewrite inject_Z_plus. rewrite H2 in *. lra.
Qed.

(** X3: [mean_angle a1 a2] lies in [[0, 360)] and halves the signed gap:
    the angular distance from [a1] to it and from it to [a2] are both half
    of the angular distance from [a1] to [a2]. *)
Theorem mean_angle_midpoint (a1 a2 : Q) :
  0 <= mean_angle a1 a2 < 360 /\
  angular_distance a1 (mean_angle a1 a2) == angular_distance a1 a2 / 2 /\
  angular_distance (mean_angle a1 a2) a2 == angular_distance a1 a2 / 2.
Proof.
  split; [apply py_mod_range_Q | apply mean_angle_split].
Qed.

Lemma overlap_shift on off :
  angular_distance on (mean_angle on off) == angular_distance on off / 2 /\
  angular_distance (mean_angle on off) off == angular_distance on off / 2 /\
  wrap_angle (on + angular_distance on (mean_angle on off)) == mean_angle on off.
Proof.
  destruct (mean_angle_split on off) as [H1 H2].
  split; [exact H1|]. split; [exact H2|].
  unfold wrap_angle, mean_angle at 2. apply (py_mod_shift _ _ 0). rewrite H1. ring.
Qed.

(** X4: [get_bounds_for_muscle] raises [KeyError] for the first muscle
    missing from the windows; otherwise the latest onset of each muscle is
    [default_max_angle] and its earliest offset [-default_min_angle]. When
    the widened onset of one muscle reaches the widened offset of the other
    ([smaller_than_angle] test), the earliest onset of the first and the
    latest offset of the second are both half the angular distance [g]
    between that onset and that offset, the shifted onset landing on
    [mean_angle]; otherwise they are the defaults [-default_min_angle] and
    [default_max_angle]. *)
Theorem get_bounds_for_muscle_spec (range : dict (Q * Q)) (m1 m2 : string)
  (dmin dmax : Q) :
  (forall e, dict_get range m1 = Err e -> get_bounds_for_muscle range m1 m2 dmin dmax = Err e) /\
  (forall w e, dict_get range m1 = Ok w -> dict_get range m2 = Err e ->
     get_bounds_for_muscle range m1 m2 dmin dmax = Err e) /\
  (forall on1 off1 on2 off2,
     dict_get range m1 = Ok (on1, off1) -> dict_get range m2 = Ok (on2, off2) ->
     exists b, get_bounds_for_muscle range m1 m2 dmin dmax = Ok b /\
       muscle1_max_onset b = dmax /\ muscle2_max_onset b = dmax /\
       muscle1_min_offset b = - dmin /\ muscle2_min_offset b = - dmin /\
       (if smaller_than_angle (wrap_angle (on1 - dmin)) (wrap_angle (off2 + dmax))
        then muscle1_min_onset b == angular_distance on1 off2 / 2 /\
             muscle2_max_offset b == angular_distance on1 off2 / 2 /\
             wrap_angle (on1 + muscle1_min_onset b) == mean_angle on1 off2
        else muscle1_min_onset b = - dmin /\ muscle2_max_offset b = dmax) /\
       (if smaller_than_angle (wrap_angle (on2 - dmin)) (wrap_angle (off1 + dmax))
        then muscle2_min_onset b == angular_distance on2 off1 / 2 /\
             muscle1_max_offset b == angular_distance on2 off1 / 2 /\
             wrap_angle (on2 + muscle2_min_onset b) == mean_angle on2 off1
        else muscle2_min_onset b = - dmin /\ muscle1_max_offset b = dmax)).
Proof.
  unfold get_bounds_for_muscle. split; [|split].
  - intros e H. rewrite H. reflexivity.
  - intros [on1 off1] e H1 H2. rewrite H1, H2. reflexivity.
  - intros on1 off1 on2 off2 H1 H2. rewrite H1, H2.
    destruct (smaller_than_angle (wrap_angle (on1 - dmin)) (wrap_angle (off2 + dmax)));
    destruct (smaller_than_angle (wrap_angle (on2 - dmin)) (wrap_angle (off1 + dmax)));
    (eexists; split; [reflexivity|]; simpl;
     do 4 (split; [reflexivity|]);
     split; [try apply overlap_shift; try (split; reflexivity) |
             try apply overlap_shift; try (split; reflexivity)]).
Qed.

End ConstantsProofs.

(** ** Proofs about the conversions of StimParameters *)
Module CommonTypesProofs.

Import StimWorker CommonTypes Lqa.
Local Open Scope Q_scope.
Local Open Scope string_scope.

(** X5: [to_flat_vector] and [from_flat_vector] with [MuscleMode.BOTH]
    are inverse: a 24-entry vector is rebuilt exactly, and so is every
    parameter set. *)
Theorem flat_vector_round_trip :
  (forall x, List.length x = 24%nat ->
     exists p, from_flat_vector x BOTH = Ok p /\ to_flat_vector p = x) /\
  (forall p, from_flat_vector (to_flat_vector p) BOTH = Ok p).
Proof.
  split.
  - intros x Hx.
    do 24 (destruct x as [|? x]; [discriminate Hx|]).
    destruct x; [|discriminate Hx].
    eexists. split; reflexivity.
  - intros []. reflexivity.
Qed.

(** X6: [from_flat_vector] reads the first 12 entries of [x] for
    [BICEPS_TRICEPS] (into the arm muscles) and for [DELTOIDS] (into the
    deltoids), every other parameter staying [0], and ignores the entries
    past those it reads; a vector too short for the mode raises
    [IndexError] and an object that is none of the three modes raises
    [ValueError]. *)
Theorem from_flat_vector_modes (x : list Q) :
  ((12 <= List.length x)%nat ->
     (exists p, from_flat_vector x BICEPS_TRICEPS = Ok p /\
        to_flat_vector p = (firstn 12 x ++ repeat 0 12)%list) /\
     (exists p, from_flat_vector x DELTOIDS = Ok p /\
        to_flat_vector p = (repeat 0 12 ++ firstn 12 x)%list)) /\
  ((24 <= List.length x)%nat ->
     exists p, from_flat_vector x BOTH = Ok p /\ to_flat_vector p = firstn 24 x) /\
  ((List.length x < 12)%nat ->
     from_flat_vector x BICEPS_TRICEPS = Err IndexError /\
     from_flat_vector x DELTOIDS = Err IndexError) /\
  ((List.length x < 24)%nat -> from_flat_vector x BOTH = Err IndexError) /\
  from_flat_vector x OtherMode = Err ValueError.
Proof.
  split; [|split; [|split; [|split]]].
  - intro H.
    do 12 (destruct x as [|? x]; [simpl in H; lia|]).
    split; eexists; split; reflexivity.
  - intro H.
    do 24 (destruct x as [|? x]; [simpl in H; lia|]).
    eexists; split; reflexivity.
  - intro H.
    do 12 (destruct x as [|? x]; [split; reflexivity|]).
    simpl in H. lia.
  - intro H.
    do 24 (destruct x as [|? x]; [reflexivity|]).
    simpl in H. lia.
  - reflexivity.
Qed.

(** X7: [mod_angle] wraps every angle of at least [-360] into
    [[0, 360)], where it agrees with [wrap_angle]; below [-360] it only
    adds one turn, so the result stays negative. *)
Theorem mod_angle_spec (a : Q) :
  (-360 <= a -> 0 <= mod_angle a < 360 /\ mod_angle a == Constants.wrap_angle a) /\
  (a < -360 -> mod_angle a == a + 360 /\ mod_angle a < 0).
Proof.
  unfold mod_angle, Constants.wrap_angle.
  pose proof (ConstantsProofs.py_mod_range_Q a) as R.
  split.
  - intro H. destruct (Qltb a 0) eqn:B1.
    + apply Qltb_spec in B1. split; [lra|].
      symmetry. apply (ConstantsProofs.py_mod_unique _ _ (-1)%Z); [lra|].
      change (inject_Z (-1)) with (-1). ring.
    + apply Qltb_false in B1. destruct (Qle_bool 360 a) eqn:B2.
      * split; [exact R | reflexivity].
      * assert (B : a < 360).
        { apply Qnot_le_lt. intro C. apply Qle_bool_iff in C. congruence. }
        split; [lra|]. symmetry.
        apply (ConstantsProofs.py_mod_unique _ _ 0); [lra|].
        change (inject_Z 0) with 0. ring.
  - intro H. assert (B1 : Qltb a 0 = true) by (apply Qltb_spec; lra).
    rewrite B1. split; [reflexivity | lra].
Qed.

Definition muscles : list string :=
  ["biceps_r"; "triceps_r"; "biceps_l"; "triceps_l";
   "delt_post_r"; "delt_ant_r"; "delt_post_l"; "delt_ant_l"].

(** X8: [add_angles_offset] never raises; for each of the 8 muscles it
    keeps the pulse intensity and replaces the onset and the offset by
    [mod_angle] of their sum with the muscle's default window
    [STIMULATION_RANGE[muscle]]. *)
Theorem add_angles_offset_spec (p : StimParameters) :
  exists q, add_angles_offset p = Ok q /\
  forall m, In m muscles ->
    exists on off,
      dict_get Constants.STIMULATION_RANGE m = Ok (on, off) /\
      stim_getattr q ("pulse_intensity_" ++ m) = stim_getattr p ("pulse_intensity_" ++ m) /\
      (forall a, stim_getattr p ("onset_deg_" ++ m) = Ok a ->
         stim_getattr q ("onset_deg_" ++ m) = Ok (mod_angle (a + on))) /\
      (forall a, stim_getattr p ("offset_deg_" ++ m) = Ok a ->
         stim_getattr q ("offset_deg_" ++ m) = Ok (mod_angle (a + off))).
Proof.
  eexists. split; [reflexivity|].
  intros m Hm.
  repeat (destruct Hm as [<- | Hm]; [do 2 eexists; split; [reflexivity|];
    split; [reflexivity|]; split; intros a Ha; simpl in Ha |- *;
    injection Ha as <-; reflexivity|]).
  destruct Hm.
Qed.

(** The 24 keys read by [from_dict], in order. *)
Definition param_names : list string :=
  ["onset_deg_biceps_r"; "offset_deg_biceps_r"; "pulse_intensity_biceps_r"; "onset_deg_triceps_r"; "offset_deg_triceps_r"; "pulse_intensity_triceps_r"; "onset_deg_biceps_l"; "offset_deg_biceps_l"; "pulse_intensity_biceps_l"; "onset_deg_triceps_l"; "offset_deg_triceps_l"; "pulse_intensity_triceps_l"; "onset_deg_delt_post_r"; "offset_deg_delt_post_r"; "pulse_intensity_delt_post_r"; "onset_deg_delt_ant_r"; "offset_deg_delt_ant_r"; "pulse_intensity_delt_ant_r"; "onset_deg_delt_post_l"; "offset_deg_delt_post_l"; "pulse_intensity_delt_post_l"; "onset_deg_delt_ant_l"; "offset_deg_delt_ant_l"; "pulse_intensity_delt_ant_l"].

(** X16: [from_dict] succeeds exactly when all 24 parameter keys are in the
    dict, any other key being ignored, and then every attribute of the
    result is the dict's value for its name; when it fails, it raises the
    [KeyError] of a parameter key missing from the dict. *)
Theorem from_dict_spec (param_dict : dict Q) :
  (forall p, from_dict param_dict = Ok p ->
     forall k, In k param_names -> stim_getattr p k = dict_get param_dict k) /\
  ((forall k, In k param_names -> exists v, dict_get param_dict k = Ok v) <->
   exists p, from_dict param_dict = Ok p) /\
  (forall e, from_dict param_dict = Err e ->
     exists k, In k param_names /\ dict_get param_dict k = Err e /\ e = KeyError k).
Proof.
  assert (Ha : forall p, from_dict param_dict = Ok p ->
     forall k, In k param_names -> stim_getattr p k = dict_get param_dict k).
  { intros p H k Hk. unfold from_dict, rbind in H.
    repeat match type of H with
      | context [match dict_get param_dict ?n with _ => _ end] =>
          let E := fresh "E" in destruct (dict_get param_dict n) eqn:E; [|discriminate H]
      end.
    injection H as <-.
    simpl in Hk. repeat destruct Hk as [<-|Hk]; [..|contradiction];
      symmetry; assumption. }
  split; [exact Ha|]. split; [split|].
  - intro H. unfold from_dict, rbind.
    repeat match goal with
      | |- context [match dict_get param_dict ?n with _ => _ end] =>
          let v := fresh "v" in let E := fresh "E" in
          destruct (H n) as [v E]; [simpl; tauto|]; rewrite E
      end.
    eexists. reflexivity.
  - intros [p H] k Hk. exists (match stim_getattr p k with Ok v => v | Err _ => 0 end).
    rewrite <- (Ha p H k Hk).
    simpl in Hk. repeat destruct Hk as [<-|Hk]; [..|contradiction]; reflexivity.
  - intros e H. unfold from_dict, rbind in H.
    repeat match type of H with
      | context [match dict_get param_dict ?n with _ => _ end] =>
          let E := fresh "E" in destruct (dict_get param_dict n) eqn:E;
          [|injection H as <-; exists n; split; [simpl; tauto|];
            split; [exact E | exact (StimWorkerProofs.dict_get_err _ _ _ E)]]
      end.
    discriminate H.
Qed.

End CommonTypesProofs.

(** ** Proofs about the cycle count and the per-muscle costs *)
Module BoWorkerProofs.

Import Pedal BoWorker.
Local Open Scope R_scope.

(** The boundaries found at indices [1 .. n]. *)
Fixpoint bounds_upto (angles : list R) (n : nat) : nat :=
  match n with
  | O => O
  | S p => (bounds_upto angles p + if is_cycle_bound angles (S p) then 1 else 0)%nat
  end.

Lemma get_num_cycles_upto angles :
  get_num_cycles angles = bounds_upto angles (List.length angles - 1).
Proof.
  unfold get_num_cycles. generalize (List.length angles - 1)%nat as n.
  assert (G : forall n acc,
    fold_left (fun num_cycles i => if is_cycle_bound angles i then S num_cycles else num_cycles)
      (seq 1 n) acc = (acc + bounds_upto angles n)%nat).
  { induction n as [|n IH]; intro acc; [simpl; lia|].
    rewrite seq_S, fold_left_app, IH. simpl.
    destruct (is_cycle_bound angles (S n)); lia. }
  intro n. rewrite G. reflexivity.
Qed.

Lemma scan_cycles_S times angles left right total nb p lb d :
  scan_cycles times angles left right total nb (S p) lb d =
  if (List.length d.(times_vector) <? nb)%nat then
    if is_cycle_bound angles (S p) then
      match lb with
      | None => scan_cycles times angles left right total nb p (Some (S p)) d
      | Some end_idx =>
          scan_cycles times angles left right total nb p (Some (S p))
            (mkCycleData
               (slice times (S p) end_idx :: d.(times_vector))
               (rotated_angle (slice angles (S p) end_idx) :: d.(cycle_angles))
               (slice left (S p) end_idx :: d.(left_power))
               (slice right (S p) end_idx :: d.(right_power))
               (slice total (S p) end_idx :: d.(total_power)))
      end
    else scan_cycles times angles left right total nb p lb d
  else d.
Proof. reflexivity. Qed.

Lemma scan_all_cycles_S times angles left right total p lb d :
  PedalWorker.scan_all_cycles times angles left right total (S p) lb d =
  if is_cycle_bound angles (S p) then
    match lb with
    | None => PedalWorker.scan_all_cycles times angles left right total p (Some (S p)) d
    | Some end_idx =>
        PedalWorker.scan_all_cycles times angles left right total p (Some (S p))
          (mkCycleData
             (slice times (S p) end_idx :: d.(times_vector))
             (rotated_angle (slice angles (S p) end_idx) :: d.(cycle_angles))
             (slice left (S p) end_idx :: d.(left_power))
             (slice right (S p) end_idx :: d.(right_power))
             (slice total (S p) end_idx :: d.(total_power)))
    end
  else PedalWorker.scan_all_cycles times angles left right total p lb d.
Proof. reflexivity. Qed.

Definition pending (lb : option nat) : nat := match lb with None => 1 | Some _ => 0 end.

Lemma scan_cycles_count times angles left right total nb n : forall lb d,
  (List.length d.(times_vector) <= nb)%nat ->
  List.length (scan_cycles times angles left right total nb n lb d).(times_vector) =
  Nat.min nb (List.length d.(times_vector) + (bounds_upto angles n - pending lb)).
Proof.
  induction n as [|p IH]; intros lb d H.
  - simpl. destruct lb; simpl; lia.
  - rewrite scan_cycles_S. simpl bounds_upto.
    destruct (Nat.ltb_spec (List.length d.(times_vector)) nb) as [Hlt|Hge]; [|lia].
    destruct (is_cycle_bound angles (S p)).
    + destruct lb as [e|]; rewrite IH; simpl; lia.
    + rewrite IH by lia. lia.
Qed.

(** The five lists of the cycle data have one entry per cycle, and the
    power slices of a cycle are as long as its angle slice. *)
Definition aligned (d : CycleData) : Prop :=
  List.length d.(times_vector) = List.length d.(cycle_angles) /\
  List.length d.(total_power) = List.length d.(cycle_angles) /\
  Forall2 (fun p a => List.length p = List.length a) d.(left_power) d.(cycle_angles) /\
  Forall2 (fun p a => List.length p = List.length a) d.(right_power) d.(cycle_angles).

Lemma slice_length (l l' : list R) a b :
  List.length l = List.length l' -> List.length (slice l a b) = List.length (slice l' a b).
Proof. intro H. unfold slice. rewrite !length_firstn, !length_skipn, H. reflexivity. Qed.

Lemma scan_cycles_aligned times angles left right total nb n :
  List.length left = List.length angles -> List.length right = List.length angles ->
  forall lb d, aligned d -> aligned (scan_cycles times angles left right total nb n lb d).
Proof.
  intros HL HR. induction n as [|p IH]; intros lb d Hd; [exact Hd|].
  rewrite scan_cycles_S.
  destruct (_ <? nb)%nat; [|exact Hd].
  destruct (is_cycle_bound angles (S p)); [destruct lb as [e|]|]; apply IH; try exact Hd.
  destruct Hd as (H1 & H2 & H3 & H4). unfold aligned; simpl.
  split; [lia|]. split; [lia|].
  unfold rotated_angle.
  split; constructor; try assumption; rewrite length_map; apply slice_length; assumption.
Qed.

(** The entries selected by a mask. *)
Fixpoint masked (mask : list bool) (p : list R) : list R :=
  match mask, p with
  | b :: m, x :: p' => if b then x :: masked m p' else masked m p'
  | _, _ => []
  end.

Lemma np_where_shift (m : list bool) s :
  map fst (filter snd (combine (seq (S s) (List.length m)) m)) =
  map S (map fst (filter snd (combine (seq s (List.length m)) m))).
Proof.
  revert s. induction m as [|b m IH]; intro s; [reflexivity|].
  simpl. destruct b; simpl; rewrite IH; reflexivity.
Qed.

Lemma np_where_cons b m :
  np_where (b :: m) = ((if b then [0%nat] else []) ++ map S (np_where m))%list.
Proof.
  unfold np_where. cbn [List.length seq combine].
  destruct b; cbn [filter snd map fst app]; rewrite np_where_shift; reflexivity.
Qed.

Lemma take_indices_shift x p idx : take_indices (x :: p) (map S idx) = take_indices p idx.
Proof.
  induction idx as [|i idx IH]; [reflexivity|]. simpl. rewrite IH. reflexivity.
Qed.

Lemma take_indices_where (mask : list bool) (p : list R) :
  List.length p = List.length mask -> take_indices p (np_where mask) = Ok (masked mask p).
Proof.
  revert p. induction mask as [|b m IH]; intros p H.
  - reflexivity.
  - destruct p as [|x p]; [discriminate H|]. injection H as H.
    rewrite np_where_cons. destruct b; simpl.
    + rewrite take_indices_shift, IH by exact H. reflexivity.
    + rewrite take_indices_shift. apply IH, H.
Qed.



Lemma muscle_cost_ok d power f intensity muscle angles :
  cost_angle_guard d = Ok angles -> power <> [] ->
  List.length (List.concat power) = List.length angles ->
  muscle_cost d power f intensity muscle =
  match StimWorker.dict_get intensity muscle with
  | Err e => Err e
  | Ok i => Ok (neg_sum_sq (masked (map f angles) (List.concat power)) + 0.05 * Q2R i ^ 2)
  end.
Proof.
  intros Hg Hp Hl. unfold muscle_cost. rewrite Hg.
  destruct power as [|c cs]; [congruence|]. unfold np_hstack.
  rewrite take_indices_where by (rewrite length_map; exact Hl). reflexivity.
Qed.




Lemma scan_cycles_same_count times angles left right total nb n : forall lb d,
  List.length d.(cycle_angles) = List.length d.(times_vector) ->
  List.length d.(left_power) = List.length d.(times_vector) ->
  List.length d.(right_power) = List.length d.(times_vector) ->
  List.length d.(total_power) = List.length d.(times_vector) ->
  let d' := scan_cycles times angles left right total nb n lb d in
  List.length d'.(cycle_angles) = List.length d'.(times_vector) /\
  List.length d'.(left_power) = List.length d'.(times_vector) /\
  List.length d'.(right_power) = List.length d'.(times_vector) /\
  List.length d'.(total_power) = List.length d'.(times_vector).
Proof.
  induction n as [|p IH]; intros lb d H1 H2 H3 H4; [simpl; auto|].
  cbv zeta. rewrite scan_cycles_S.
  destruct (_ <? nb)%nat; [|auto].
  destruct (is_cycle_bound angles (S p)); [destruct lb as [e|]|]; apply IH; simpl; auto.
Qed.

(** X10: [get_last_cycles_data] returns [min(nb_cycles_to_keep,
    get_num_cycles() - 1)] cycles: the boundaries it finds are those that
    [get_num_cycles] counts, the last one only closing the most recent
    cycle; its five lists have that many entries each. *)
Theorem get_last_cycles_data_count times angles left right total nb :
  let d := get_last_cycles_data times angles left right total nb in
  List.length d.(times_vector) = Nat.min nb (get_num_cycles angles - 1) /\
  List.length d.(cycle_angles) = List.length d.(times_vector) /\
  List.length d.(left_power) = List.length d.(times_vector) /\
  List.length d.(right_power) = List.length d.(times_vector) /\
  List.length d.(total_power) = List.length d.(times_vector).
Proof.
  intro d. split.
  - unfold d, get_last_cycles_data. rewrite scan_cycles_count by (simpl; lia).
    rewrite get_num_cycles_upto. reflexivity.
  - apply scan_cycles_same_count; reflexivity.
Qed.

Lemma scan_all_no_more times angles left right total n : forall lb d,
  (bounds_upto angles n - pending lb = 0)%nat ->
  PedalWorker.scan_all_cycles times angles left right total n lb d = d.
Proof.
  induction n as [|p IH]; intros lb d H; [reflexivity|].
  rewrite scan_all_cycles_S. simpl bounds_upto in H.
  destruct (is_cycle_bound angles (S p)).
  - destruct lb as [e|]; simpl in H; [lia|]. apply IH. simpl. lia.
  - apply IH. lia.
Qed.

Lemma scan_cycles_all times angles left right total nb n : forall lb d,
  (List.length d.(times_vector) + (bounds_upto angles n - pending lb) <= nb)%nat ->
  scan_cycles times angles left right total nb n lb d =
  PedalWorker.scan_all_cycles times angles left right total n lb d.
Proof.
  induction n as [|p IH]; intros lb d H; [reflexivity|].
  rewrite scan_cycles_S.
  destruct (Nat.ltb_spec (List.length d.(times_vector)) nb) as [Hlt|Hge].
  - rewrite scan_all_cycles_S. simpl bounds_upto in H.
    destruct (is_cycle_bound angles (S p)).
    + destruct lb as [e|]; apply IH; simpl in *; lia.
    + apply IH. lia.
  - symmetry. apply scan_all_no_more. lia.
Qed.

(** X11: [PedalWorker.get_last_cycle_data] is the scan of
    [get_last_cycles_data] without its limit: the two return the same cycles
    whenever [nb_cycles_to_keep] is at least [get_num_cycles() - 1], and the
    pedal worker's version always returns [get_num_cycles() - 1] cycles. *)
Theorem pedal_cycle_data_agrees times angles left right total :
  (forall nb, (get_num_cycles angles - 1 <= nb)%nat ->
     get_last_cycles_data times angles left right total nb =
     PedalWorker.get_last_cycle_data times angles left right total) /\
  List.length (PedalWorker.get_last_cycle_data times angles left right total).(times_vector) =
  (get_num_cycles angles - 1)%nat.
Proof.
  assert (A : forall nb, (get_num_cycles angles - 1 <= nb)%nat ->
     get_last_cycles_data times angles left right total nb =
     PedalWorker.get_last_cycle_data times angles left right total).
  { intros nb H. unfold get_last_cycles_data, PedalWorker.get_last_cycle_data.
    apply scan_cycles_all. rewrite get_num_cycles_upto in H. simpl. lia. }
  split; [exact A|].
  rewrite <- (A (get_num_cycles angles - 1)%nat) by lia.
  unfold get_last_cycles_data. rewrite scan_cycles_count by (simpl; lia).
  rewrite get_num_cycles_upto. simpl. lia.
Qed.

Lemma cost_dict_get_err {V} (d : StimWorker.dict V) k e :
  StimWorker.dict_get d k = Err e -> e = KeyError k.
Proof.
  induction d as [|[k' v] d IH]; simpl; [congruence|].
  destruct (String.eqb k k'); [discriminate|exact IH].
Qed.

Lemma forall2_concat_length (ps as_ : list (list R)) :
  Forall2 (fun p a => List.length p = List.length a) ps as_ ->
  List.length (List.concat ps) = List.length (List.concat as_).
Proof.
  induction 1; [reflexivity|]. simpl. rewrite !length_app. lia.
Qed.

Lemma muscle_cost_key d power f intensity muscle angles :
  cost_angle_guard d = Ok angles -> power <> [] ->
  List.length (List.concat power) = List.length angles ->
  match StimWorker.dict_get intensity muscle with
  | Ok _ => exists c, muscle_cost d power f intensity muscle = Ok c
  | Err _ => muscle_cost d power f intensity muscle = Err (KeyError muscle)
  end.
Proof.
  intros Hg Hp Hl. rewrite (muscle_cost_ok d power f intensity muscle angles Hg Hp Hl).
  destruct (StimWorker.dict_get intensity muscle) eqn:E.
  - eexists. reflexivity.
  - apply cost_dict_get_err in E. subst. reflexivity.
Qed.

(** X12: on the cycle data of [get_last_cycles_data] (columns of one length,
    at least one cycle kept) each of the four cost functions returns a cost
    exactly when the controller's [intensity] dict has its muscle, and
    raises [KeyError] for that muscle otherwise; so on a controller as built
    by [HandCycling2.__init__], which only has [biceps_r], the triceps_r,
    biceps_l and triceps_l costs always raise [KeyError]. *)
Theorem costs_on_cycle_data times angles left right total nb :
  List.length left = List.length angles -> List.length right = List.length angles ->
  let d := get_last_cycles_data times angles left right total nb in
  cycle_angles d <> [] ->
  (forall intensity m cost,
     In (m, cost) [("biceps_r"%string, biceps_r_cost); ("triceps_r"%string, triceps_r_cost);
                   ("biceps_l"%string, biceps_l_cost); ("triceps_l"%string, triceps_l_cost)] ->
     match StimWorker.dict_get intensity m with
     | Ok _ => exists c, cost d intensity = Ok c
     | Err _ => cost d intensity = Err (KeyError m)
     end) /\
  (exists c, biceps_r_cost d (StimWorker.intensity StimWorker.init_HandCycling2) = Ok c) /\
  triceps_r_cost d (StimWorker.intensity StimWorker.init_HandCycling2) =
    Err (KeyError "triceps_r") /\
  biceps_l_cost d (StimWorker.intensity StimWorker.init_HandCycling2) =
    Err (KeyError "biceps_l") /\
  triceps_l_cost d (StimWorker.intensity StimWorker.init_HandCycling2) =
    Err (KeyError "triceps_l").
Proof.
  intros HL HR d Hne.
  assert (Hal : aligned d).
  { apply scan_cycles_aligned; [exact HL | exact HR |].
    repeat split; constructor. }
  destruct Hal as (_ & _ & HLp & HRp).
  assert (Hg : cost_angle_guard d = Ok (List.concat (cycle_angles d))).
  { destruct (PedalProofs.cost_angle_guard_closed d) as [[E _]|E]; [| |exact E].
    - pose proof (PedalProofs.scan_cycles_range times angles left right total nb
                    (List.length angles - 1) None (mkCycleData [] [] [] [] [])
                    (Forall_nil _)) as H.
      eapply Forall_impl; [|exact H]. intros c Hc.
      eapply Forall_impl; [|exact Hc]. intros a Ha. lra.
    - contradiction. }
  assert (HRn : right_power d <> []).
  { intro E. rewrite E in HRp. inversion HRp. congruence. }
  assert (HLn : left_power d <> []).
  { intro E. rewrite E in HLp. inversion HLp. congruence. }
  pose proof (forall2_concat_length _ _ HRp) as HRl.
  pose proof (forall2_concat_length _ _ HLp) as HLl.
  assert (K : forall intensity m cost,
     In (m, cost) [("biceps_r"%string, biceps_r_cost); ("triceps_r"%string, triceps_r_cost);
                   ("biceps_l"%string, biceps_l_cost); ("triceps_l"%string, triceps_l_cost)] ->
     match StimWorker.dict_get intensity m with
     | Ok _ => exists c, cost d intensity = Ok c
     | Err _ => cost d intensity = Err (KeyError m)
     end).
  { intros intensity m cost Hin.
    repeat (destruct Hin as [Hin|Hin]; [injection Hin as <- <-; apply (muscle_cost_key _ _ _ _ _ _ Hg); assumption|]).
    destruct Hin. }
  split; [exact K|].
  pose proof (K (StimWorker.intensity StimWorker.init_HandCycling2)) as K0.
  split; [apply (K0 "biceps_r"%string); simpl; auto|].
  split; [apply (K0 "triceps_r"%string); simpl; auto|].
  split; [apply (K0 "biceps_l"%string); simpl; auto|].
  apply (K0 "triceps_l"%string); simpl; auto.
Qed.

(** Python's [x // (2 pi)] is [0] on one turn. *)
Lemma floordiv_small x : 0 <= x < 2 * PI -> py_floordiv x (2 * PI) = 0.
Proof.
  intro H. pose proof PI_RGT_0. unfold py_floordiv, Int_part.
  assert (Hq : 0 <= x / (2 * PI) < 1).
  { unfold Rdiv. split.
    - apply Rmult_le_pos; [lra|]. left. apply Rinv_0_lt_compat. lra.
    - apply Rmult_lt_reg_r with (2 * PI); [lra|].
      rewrite Rmult_assoc, Rinv_l by lra. lra. }
  rewrite <- (tech_up (x / (2 * PI)) 1) by lra. reflexivity.
Qed.


Lemma costs_on_cycle_data_witness :
  triceps_r_cost (get_last_cycles_data [0; 1; 2; 3] [1; 0; 1; 0] [1; 1; 1; 1] [2; 2; 2; 2]
                    [3; 3; 3; 3] 5) (StimWorker.intensity StimWorker.init_HandCycling2) =
  Err (KeyError "triceps_r").
Proof.
  assert (Hne : cycle_angles (get_last_cycles_data [0; 1; 2; 3] [1; 0; 1; 0] [1; 1; 1; 1]
                  [2; 2; 2; 2] [3; 3; 3; 3] 5) <> []).
  { pose proof PI_RGT_0.
    assert (F0 : py_floordiv 0 (2 * PI) = 0) by (apply floordiv_small; lra).
    assert (F1 : py_floordiv 1 (2 * PI) = 0) by (apply floordiv_small; pose proof PI2_1; lra).
    unfold get_last_cycles_data. cbn [List.length Nat.sub scan_cycles nth].
    rewrite F0. cbn [List.length Nat.ltb Nat.leb].
    unfold np_sign.
    destruct (total_order_T (0 - 0 * 2 * PI) 0) as [[A|A]|A]; [lra| |lra].
    destruct (total_order_T (1 - 0 * 2 * PI) 0) as [[B|B]|B]; [lra|lra|].
    cbn - [rotated_angle slice]. rewrite F1.
    destruct (total_order_T (1 - 0 * 2 * PI) 0) as [[C|C]|C]; [lra|lra|].
    destruct (total_order_T (0 - 0 * 2 * PI) 0) as [[D|D]|D]; [lra| |lra].
    cbn - [rotated_angle slice]. discriminate. }
  destruct (costs_on_cycle_data [0; 1; 2; 3] [1; 0; 1; 0] [1; 1; 1; 1] [2; 2; 2; 2]
              [3; 3; 3; 3] 5 eq_refl eq_refl Hne) as (_ & _ & Ht & _).
  exact Ht.
Defined.

End BoWorkerProofs.

(** ** Proofs about the pedal worker's loop *)
Module PedalWorkerProofs.

Import PrimFloat SpecFloat FloatOps FloatAxioms PedalFloat PedalWorkerFloat.
Local Open Scope float_scope.

Lemma Prim2SF_360 : Prim2SF 360 = S754_finite false 6333186975989760 (-44).
Proof. vm_compute. reflexivity. Qed.

Lemma py_float_mod_360 x : py_float_mod x 360 = np_remainder x 360.
Proof. unfold np_remainder. replace (360 =? 0) with false by (vm_compute; reflexivity). reflexivity. Qed.

Lemma py_float_mod_360_range x :
  (py_float_mod x 360 <? 0) = false /\ (360 <? py_float_mod x 360) = false.
Proof. rewrite py_float_mod_360. exact (PedalFloatProofs.np_remainder_range x 360 _ _ Prim2SF_360). Qed.

(** An angle in degrees that compares neither below [0.] nor above [360.]. *)
Definition angle_ok (a : float) : Prop := (a <? 0) = false /\ (360 <? a) = false.

Definition angles_in_turn (st : PedalState) : Prop :=
  angle_ok (_angle st) /\ angle_ok (_previous_angle st) /\ angle_ok (_angle_estimate st).

Lemma run_step_in_turn s sample :
  angles_in_turn (fst s) -> angles_in_turn (fst (run_step s sample)).
Proof.
  destruct s as [st [pa ps]]. intro H. destruct sample as [|a18 a35 a36 a37 now]; [exact H|].
  unfold run_step.
  destruct (_ || _); simpl; unfold angles_in_turn, angle_ok; simpl.
  - split; [apply py_float_mod_360_range|]. split; apply py_float_mod_360_range.
  - destruct H as (H1 & H2 & _). split; [exact H1|]. split; [exact H2 | apply py_float_mod_360_range].
Qed.

(** X13: in binary64, the loop of [PedalWorker.run] keeps the stored
    angle, the integrator's reference angle and the estimated angle
    returned by [get_latest_estimated_angle] from comparing below [0.] or
    above [360.]: measured angles are reduced modulo 360 before
    [update_sensor], and [calculate_angle] reduces its extrapolation
    modulo 360. The reduced angle may round up to [360.] itself, and is
    NaN for a non-finite input. *)
Theorem run_keeps_angles_in_turn (st : PedalState) (samples : list Sample) :
  (_angle st <? 0) = false /\ (360 <? _angle st) = false ->
  (_previous_angle st <? 0) = false /\ (360 <? _previous_angle st) = false ->
  (_angle_estimate st <? 0) = false /\ (360 <? _angle_estimate st) = false ->
  let st' := fst (run st samples) in
  ((_angle st' <? 0) = false /\ (360 <? _angle st') = false) /\
  ((_previous_angle st' <? 0) = false /\ (360 <? _previous_angle st') = false) /\
  ((get_latest_estimated_angle st' <? 0) = false /\ (360 <? get_latest_estimated_angle st') = false).
Proof.
  intros H1 H2 H3. unfold run.
  assert (G : forall s, angles_in_turn (fst s) -> angles_in_turn (fst (fold_left run_step samples s))).
  { induction samples as [|x xs IH]; intros s Hs; [exact Hs|].
    simpl. apply IH, run_step_in_turn, Hs. }
  apply G. split; [exact H1|]. split; [exact H2 | exact H3].
Qed.

Lemma run_keeps_angles_in_turn_witness :
  let st' := fst (run init_PedalState [Row 7 1 2 3 1; NoData; Row (-1) 0 0 0 2; Row (-1) 0 0 0 3]) in
  ((_angle st' <? 0) = false /\ (360 <? _angle st') = false) /\
  ((_previous_angle st' <? 0) = false /\ (360 <? _previous_angle st') = false) /\
  ((get_latest_estimated_angle st' <? 0) = false /\ (360 <? get_latest_estimated_angle st') = false).
Proof. apply run_keeps_angles_in_turn; split; vm_compute; reflexivity. Defined.

End PedalWorkerProofs.

(** ** Proofs about the kernel of the Gaussian process *)
Module GPKernelProofs.

Import GP.
Local Open Scope R_scope.

Lemma sqeuclidean_nonneg u v : 0 <= sqeuclidean u v.
Proof.
  revert v. induction u as [|a u IH]; intros [|b v]; unfold sqeuclidean;
    cbn [combine map fold_right]; try lra.
  fold (sqeuclidean u v). pose proof (IH v). pose proof (pow2_ge_0 (a - b)). lra.
Qed.

Lemma sqeuclidean_diag u : sqeuclidean u u = 0.
Proof.
  induction u as [|a u IH]; [reflexivity|]. unfold sqeuclidean in *.
  cbn [combine map fold_right]. rewrite IH. ring.
Qed.

Lemma sqeuclidean_sym u v : sqeuclidean u v = sqeuclidean v u.
Proof.
  revert v. induction u as [|a u IH]; intros [|b v]; try reflexivity.
  unfold sqeuclidean in *. cbn [combine map fold_right]. rewrite IH. ring.
Qed.

Lemma nth_map_lt {A B} (f : A -> B) l (d : A) (d' : B) i :
  (i < List.length l)%nat -> nth i (map f l) d' = f (nth i l d).
Proof.
  intro H. rewrite (nth_indep _ d' (f d)) by (rewrite length_map; exact H). apply map_nth.
Qed.

Lemma rbf_entry gp X Y i j :
  (i < List.length X)%nat -> (j < List.length Y)%nat ->
  nth j (nth i (rbf_kernel gp X Y) []) 0 =
  exp (-0.5 * sqeuclidean (nth i X []) (nth j Y []) / length_scale gp ^ 2).
Proof.
  intros Hi Hj. unfold rbf_kernel.
  rewrite (nth_map_lt _ X [] [] i Hi). rewrite (nth_map_lt _ Y [] 0 j Hj). reflexivity.
Qed.

(** X14: for a non-zero length scale, the Gram matrix [rbf_kernel(X, X)]
    that [fit] builds is symmetric with ones on its diagonal. *)
Theorem rbf_kernel_props (gp : GaussianProcess) (X : matrix) :
  length_scale gp <> 0 ->
  (forall i, (i < List.length X)%nat -> nth i (nth i (rbf_kernel gp X X) []) 0 = 1) /\
  (forall i j, (i < List.length X)%nat -> (j < List.length X)%nat ->
     nth j (nth i (rbf_kernel gp X X) []) 0 = nth i (nth j (rbf_kernel gp X X) []) 0).
Proof.
  intro Hl. split.
  - intros i Hi. rewrite rbf_entry by exact Hi. rewrite sqeuclidean_diag.
    replace (-0.5 * 0 / length_scale gp ^ 2) with 0 by (field; exact Hl). apply exp_0.
  - intros i j Hi Hj. rewrite !rbf_entry by assumption. rewrite sqeuclidean_sym. reflexivity.
Qed.

Lemma rbf_kernel_props_witness :
  (forall i, (i < 2)%nat ->
     nth i (nth i (rbf_kernel (mkGP 2 0 [] [] []) [[0; 1]; [1; 3]] [[0; 1]; [1; 3]]) []) 0 = 1) /\
  (forall i j, (i < 2)%nat -> (j < 2)%nat ->
     nth j (nth i (rbf_kernel (mkGP 2 0 [] [] []) [[0; 1]; [1; 3]] [[0; 1]; [1; 3]]) []) 0 =
     nth i (nth j (rbf_kernel (mkGP 2 0 [] [] []) [[0; 1]; [1; 3]] [[0; 1]; [1; 3]]) []) 0).
Proof.
  exact (rbf_kernel_props (mkGP 2 0 [] [] []) [[0; 1]; [1; 3]] ltac:(simpl; lra)).
Defined.

End GPKernelProofs.

(** ** Proofs about the multi-start search of the next point *)
Module SuggestProofs.

Import Optimizer Suggest.
Local Open Scope Q_scope.

(** [j] is the first index of [[lo, hi)] where [f] is smallest. *)
Definition first_argmin (f : nat -> Q) (lo hi j : nat) : Prop :=
  (lo <= j < hi)%nat /\
  (forall i, (lo <= i < hi)%nat -> f j <= f i) /\
  (forall i, (lo <= i < j)%nat -> f j < f i).

Section Restarts.

Variable PARAMS_BOUNDS : string -> Bounds.
Variable uniform_vec : nat -> list Q -> list Q -> list Q.
Variable minimize : string -> list Q -> list Q * Q.

(** The result of the restart that makes the [k]-th draw for [muscle]. *)
Definition cand (k : nat) (muscle : string) : list Q * Q :=
  minimize muscle (uniform_vec k (map fst (bounds PARAMS_BOUNDS muscle))
                                 (map snd (bounds PARAMS_BOUNDS muscle))).

(** The candidates kept for the muscles [keys], one block of [n] draws
    per muscle from the draw [base] on. *)
Fixpoint all_chosen (keys : list string) (base n : nat) (xs : list (list Q)) : Prop :=
  match keys, xs with
  | [], [] => True
  | m :: ks, x :: xs' =>
      (exists j, first_argmin (fun i => snd (cand i m)) base (base + n) j /\
                 x = fst (cand j m)) /\
      all_chosen ks (base + n) n xs'
  | _, _ => False
  end.

Lemma restarts_S m k rng bx ba :
  restarts PARAMS_BOUNDS uniform_vec minimize m (S k) rng bx ba =
  if ext_ltb (snd (cand rng m)) ba then
    restarts PARAMS_BOUNDS uniform_vec minimize m k (S rng) (Some (fst (cand rng m)))
      (Fin (snd (cand rng m)))
  else restarts PARAMS_BOUNDS uniform_vec minimize m k (S rng) bx ba.
Proof. simpl. unfold cand. destruct (minimize _ _). reflexivity. Qed.

Lemma restarts_rng m k : forall rng bx ba,
  snd (restarts PARAMS_BOUNDS uniform_vec minimize m k rng bx ba) = (rng + k)%nat.
Proof.
  induction k as [|k IH]; intros rng bx ba; [simpl; lia|].
  rewrite restarts_S. destruct (ext_ltb _ _); rewrite IH; lia.
Qed.

Lemma ext_ltb_trans y z ba :
  y < z -> ext_ltb z ba = true -> ext_ltb y ba = true.
Proof.
  destruct ba as [q|]; [|reflexivity]. simpl. rewrite !Qltb_spec.
  intros H1 H2. exact (Qlt_trans _ _ _ H1 H2).
Qed.

Lemma ext_ltb_false_le y z ba :
  ext_ltb z ba = false -> ext_ltb y ba = true -> y < z.
Proof.
  destruct ba as [q|]; [|discriminate]. simpl. rewrite Qltb_false, Qltb_spec.
  intros H1 H2. exact (Qlt_le_trans _ _ _ H2 H1).
Qed.

Lemma restarts_spec m k : forall rng bx ba,
  let res := fst (restarts PARAMS_BOUNDS uniform_vec minimize m k rng bx ba) in
  (res = bx /\ forall i, (rng <= i < rng + k)%nat -> ext_ltb (snd (cand i m)) ba = false) \/
  (exists j, first_argmin (fun i => snd (cand i m)) rng (rng + k) j /\
     res = Some (fst (cand j m)) /\ ext_ltb (snd (cand j m)) ba = true).
Proof.
  induction k as [|k IH]; intros rng bx ba res.
  - left. split; [reflexivity | intros i Hi; lia].
  - unfold res. clear res. rewrite restarts_S.
    destruct (ext_ltb (snd (cand rng m)) ba) eqn:B.
    + right. destruct (IH (S rng) (Some (fst (cand rng m))) (Fin (snd (cand rng m))))
        as [[E Hall] | (j & (Hj & Hmin & Hfirst) & E & Hlt)].
      * exists rng. split; [|split; [exact E | exact B]].
        split; [lia|]. split.
        -- intros i Hi. destruct (Nat.eq_dec i rng) as [->|Hne]; [apply Qle_refl|].
           apply Qltb_false, (Hall i). lia.
        -- intros i Hi. lia.
      * simpl in Hlt. apply Qltb_spec in Hlt.
        exists j. split; [|split; [exact E | exact (ext_ltb_trans _ _ _ Hlt B)]].
        split; [lia|]. split.
        -- intros i Hi. destruct (Nat.eq_dec i rng) as [->|Hne]; [apply Qlt_le_weak, Hlt|].
           apply Hmin. lia.
        -- intros i Hi. destruct (Nat.eq_dec i rng) as [->|Hne]; [exact Hlt|].
           apply Hfirst. lia.
    + destruct (IH (S rng) bx ba) as [[E Hall] | (j & (Hj & Hmin & Hfirst) & E & Hlt)].
      * left. split; [exact E|]. intros i Hi.
        destruct (Nat.eq_dec i rng) as [->|Hne]; [exact B|]. apply Hall. lia.
      * right. pose proof (ext_ltb_false_le _ _ _ B Hlt) as L.
        exists j. split; [|split; [exact E | exact Hlt]].
        split; [lia|]. split.
        -- intros i Hi. destruct (Nat.eq_dec i rng) as [->|Hne]; [apply Qlt_le_weak, L|].
           apply Hmin. lia.
        -- intros i Hi. destruct (Nat.eq_dec i rng) as [->|Hne]; [exact L|].
           apply Hfirst. lia.
Qed.

Lemma suggest_loop_spec n keys : (1 <= n)%nat -> forall rng pre,
  exists xs, all_chosen keys rng n xs /\
    suggest_loop PARAMS_BOUNDS uniform_vec minimize keys n rng pre =
    (Ok (pre ++ List.concat xs), (rng + List.length keys * n)%nat).
Proof.
  intro Hn. induction keys as [|m ks IH]; intros rng pre.
  - exists []. split; [exact I|]. simpl. rewrite app_nil_r. f_equal; lia.
  - simpl suggest_loop.
    pose proof (restarts_rng m n rng None PInf) as Rr.
    destruct (restarts_spec m n rng None PInf) as [[_ Hall] | (j & Hj & E & _)].
    + exfalso. specialize (Hall rng ltac:(lia)). discriminate Hall.
    + destruct (restarts PARAMS_BOUNDS uniform_vec minimize m n rng None PInf)
        as [bx rng'] eqn:Er.
      simpl in E, Rr. subst bx rng'.
      destruct (IH (rng + n)%nat (pre ++ fst (cand j m))) as (xs & Hxs & Hs).
      exists (fst (cand j m) :: xs). split.
      * split; [exists j; split; [exact Hj | reflexivity] | exact Hxs].
      * rewrite Hs. simpl. rewrite app_assoc. f_equal; lia.
Qed.

End Restarts.

(** X15: [suggest_next_point(n_restarts)] keeps, for each muscle in turn,
    the point [result.x] of the first restart whose [result.fun] is the
    smallest of its [n_restarts] restarts, and returns the concatenation of
    these points after [n_restarts] draws per muscle; with
    [n_restarts = 0] no point is ever kept and [best_x.tolist()] raises
    [AttributeError] on [None]. *)
Theorem suggest_next_point_spec PARAMS_BOUNDS uniform_vec minimize
  (muscle_keys : list string) (n_restarts rng : nat) :
  ((1 <= n_restarts)%nat ->
   exists xs, all_chosen PARAMS_BOUNDS uniform_vec minimize muscle_keys rng n_restarts xs /\
     suggest_next_point PARAMS_BOUNDS uniform_vec minimize muscle_keys n_restarts rng =
     (Ok (List.concat xs), (rng + List.length muscle_keys * n_restarts)%nat)) /\
  (n_restarts = 0%nat -> muscle_keys <> [] ->
   suggest_next_point PARAMS_BOUNDS uniform_vec minimize muscle_keys n_restarts rng =
   (Err (AttributeError "tolist"), rng)).
Proof.
  split.
  - intro Hn. apply (suggest_loop_spec PARAMS_BOUNDS uniform_vec minimize n_restarts muscle_keys Hn rng []).
  - intros -> Hk. destruct muscle_keys as [|m ks]; [congruence|]. reflexivity.
Qed.

Lemma suggest_next_point_spec_witness :
  exists xs,
    all_chosen (fun _ => mkBounds (0, 1) (-1, 2) (5, 15))
      (fun k lo hi => map (fun '(l, h) => l + (h - l) * (1 # Pos.of_nat (S k))) (combine lo hi))
      (fun _ x0 => (x0, - List.fold_right Qplus 0 x0))
      ["biceps_r"; "triceps_r"]%string 0 3 xs /\
    suggest_next_point (fun _ => mkBounds (0, 1) (-1, 2) (5, 15))
      (fun k lo hi => map (fun '(l, h) => l + (h - l) * (1 # Pos.of_nat (S k))) (combine lo hi))
      (fun _ x0 => (x0, - List.fold_right Qplus 0 x0))
      ["biceps_r"; "triceps_r"]%string 3 0 = (Ok (List.concat xs), 6%nat).
Proof.
  exact (proj1 (suggest_next_point_spec _ _ _ ["biceps_r"; "triceps_r"]%string 3 0)
           ltac:(lia)).
Defined.

End SuggestProofs.
